(** * FocusLog: a shallow embedding of [focuslog.py] and its properties

    The development follows the layout of the Python module:
    string helpers, the configuration record standing for [import config],
    the helper functions of section 5 ([_format_duration_compact],
    [_sanitize_window_title], [_anonymize_title]), the query tool
    [get_activity_log], and one cycle of each background loop of section 6
    ([_apm_counter_thread], [log_activity_periodically]).

    Conventions of the embedding.
    - A Python [str] is a list of characters; a character is an [ascii],
      read as the code point of the same number (the Latin-1 range).
      [str "..."] turns a literal into such a list. The strings of the
      development are therefore the strings of characters below U+0100,
      and every statement about titles and keywords is a statement about
      such titles and keywords. The classes [\s] and [\w], [str.lower]
      and [re.IGNORECASE] are embedded as they are on that range; beyond
      it [re.IGNORECASE] has further equivalences, some between a word
      character and a character that is none (U+03B9 and U+0345), which
      are outside the embedding.
    - A [datetime] is the number of microseconds since a fixed local
      midnight (the datetimes of the program are naive), a [timedelta] is a
      number of microseconds; both are [Z].
    - The table stores time stamps as ISO texts and compares them as
      texts; that order is the order of the instants, so the column is
      kept as the instant.
    - Python's [int] is [Z]. Where the program goes through a float
      ([total_seconds], [statistics.mean]) the exact value is used, which
      the float equals for durations and sums below 2^53.
    - Calls to external programs and to the clock are inputs of the
      functions that make them. *)

From Stdlib Require Import ZArith Ascii String DecimalString DecimalPos Sorted Lia.
From stdpp Require Import gmap strings list fin_maps sorting.

Local Open Scope Z_scope.

(** ** Python strings *)

Abbreviation pystr := (list ascii).

Definition str (s : string) : pystr := list_ascii_of_string s.

Definition code (c : ascii) : N := N_of_ascii c.

Definition in_range (lo hi : N) (c : ascii) : bool :=
  ((lo <=? code c) && (code c <=? hi))%N.

(** [str.isspace] on one character, which is also the class [\s] of [re]
    for [str] patterns. *)
Definition is_space (c : ascii) : bool :=
  in_range 9 13 c || in_range 28 32 c
  || (code c =? 133)%N || (code c =? 160)%N.

(** [str.isalnum] on one character: letters, decimal digits and the other
    numeric characters of the range. *)
Definition is_alnum (c : ascii) : bool :=
  in_range 48 57 c || in_range 65 90 c || in_range 97 122 c
  || (code c =? 170)%N || (code c =? 178)%N || (code c =? 179)%N
  || (code c =? 181)%N || (code c =? 185)%N || (code c =? 186)%N
  || in_range 188 190 c
  || in_range 192 214 c || in_range 216 246 c || in_range 248 255 c.

(** The class [\w] of [re] for [str] patterns. *)
Definition is_word (c : ascii) : bool :=
  is_alnum c || (code c =? 95)%N.

(** Simple lower-casing, as [re.IGNORECASE] applies it to a character. *)
Definition lower (c : ascii) : ascii :=
  if in_range 65 90 c || (in_range 192 222 c && negb (code c =? 215)%N)
  then ascii_of_N (code c + 32)
  else c.

(** [prefix in s] at the front: [s.startswith(p)]. *)
Fixpoint startswith (s p : pystr) {struct p} : bool :=
  match p, s with
  | [], _ => true
  | k :: p', c :: s' => Ascii.eqb k c && startswith s' p'
  | _ :: _, [] => false
  end.

(** [s.endswith(suffix)]. *)
Definition endswith (s suffix : pystr) : bool :=
  startswith (rev s) (rev suffix).

(** [needle in s] for strings. *)
Fixpoint contains (s needle : pystr) : bool :=
  startswith s needle ||
  match s with
  | [] => false
  | _ :: s' => contains s' needle
  end.

(** [s[i:]] with Python's treatment of a negative index. *)
Definition slice_from (s : pystr) (i : Z) : pystr :=
  let n := Z.of_nat (length s) in
  let start := if i <? 0 then Z.max 0 (n + i) else Z.min i n in
  drop (Z.to_nat start) s.

Fixpoint lstrip (p : ascii -> bool) (s : pystr) : pystr :=
  match s with
  | c :: s' => if p c then lstrip p s' else s
  | [] => []
  end.

Definition rstrip (p : ascii -> bool) (s : pystr) : pystr :=
  rev (lstrip p (rev s)).

(** [s.strip()] is [strip is_space s]; [s.strip(chars)] is
    [strip (fun c => c in chars) s]. *)
Definition strip (p : ascii -> bool) (s : pystr) : pystr :=
  rstrip p (lstrip p s).

(** [str(n)] for an [int]. *)
Definition str_of_Z (n : Z) : pystr :=
  str (NilZero.string_of_int (Z.to_int n)).

(** ** Configuration *)

(** Modelled from the spec: [config.py] is not among the sources. Its
    constants are the fields of this record, one per name the module reads.
    [TITLE_CLEANUP_RULES] is a dict, kept as the list of its items in
    iteration order. [APM_POLL_INTERVAL_S] is a number of seconds, kept as the
    whole number of milliseconds [int(config.APM_POLL_INTERVAL_S * 1000)] the
    sampler computes from it. The other times are whole seconds or hours. *)
Record Config := {
  KNOWN_BROWSERS : list pystr;
  TITLE_CLEANUP_RULES : list (pystr * pystr);
  MAX_TITLE_LENGTH : Z;
  FORBIDDEN_KEYWORDS : list pystr;
  LOG_INTERVAL_SECONDS : Z;
  LOG_RETENTION_HOURS : Z;
  APM_WINDOW_SECONDS : Z;
  poll_interval_ms : Z
}.

Definition microseconds_of_seconds (s : Z) : Z := s * 1000000.
Definition microseconds_of_hours (h : Z) : Z := h * 3600 * 1000000.

(** ** Section 5: helper functions *)

(** The outcome of [_run_command]: the stripped standard output, [None]
    (time-out or non-zero exit status), or an exception that the function
    does not catch. *)
Inductive CmdOutcome :=
| Output (stdout : pystr)
| NoResult
| Raises.

(** [_format_duration_compact]. *)
Definition _format_duration_compact (duration : Z) : pystr :=
  let seconds := Z.quot duration 1000000 in
  if seconds <? 60 then str_of_Z seconds ++ str "s"
  else
    let minutes := seconds / 60 in
    if minutes <? 60 then str_of_Z minutes ++ str "m"
    else
      let hours := minutes / 60 in
      let rem_minutes := minutes mod 60 in
      if rem_minutes =? 0 then str_of_Z hours ++ str "h"
      else str_of_Z hours ++ str "h" ++ str_of_Z rem_minutes ++ str "m".

(** Truth value of a string: non-empty. *)
Definition truthy (s : pystr) : bool :=
  match s with [] => false | _ => true end.

(** [_sanitize_window_title]. *)
Definition _sanitize_window_title (cfg : Config) (title : pystr) : pystr :=
  let browser_name := find (endswith title) (KNOWN_BROWSERS cfg) in
  let by_rule :=
    match browser_name with
    | Some browser =>
        if truthy browser then
          match find (fun rule => contains title rule.1)
                     (TITLE_CLEANUP_RULES cfg) with
          | Some (_, clean_name) => Some (clean_name ++ str " - " ++ browser)
          | None => None
          end
        else None
    | None => None
    end in
  match by_rule with
  | Some r => r
  | None =>
      if Z.of_nat (length title) >? MAX_TITLE_LENGTH cfg
      then str "..." ++ slice_from title (- (MAX_TITLE_LENGTH cfg - 3))
      else title
  end.

(** *** The two regular expressions of [_anonymize_title]

    [FORBIDDEN_PATTERN] is [\b(k1|k2|...)\b] with [re.IGNORECASE], every
    [ki] an escaped literal. The matcher keeps [thatp], whether the character
    before the current position is a word character ([false] at the start
    of the string), which is all that [\b] reads of it. *)

Definition head_is_word (s : pystr) : bool :=
  match s with c :: _ => is_word c | [] => false end.

(** [\b] at the position in front of [s]. *)
Definition at_boundary (thatp : bool) (s : pystr) : bool :=
  xorb thatp (head_is_word s).

(** A pattern character against a subject character under [IGNORECASE],
    both below U+0100: the two have the same simple lower case. *)
Definition ci_eq (k c : ascii) : bool := Ascii.eqb (lower k) (lower c).

(** The literal [kw] followed by the closing [\b]. *)
Fixpoint match_tail (thatp : bool) (s kw : pystr) {struct kw} : bool :=
  match kw with
  | [] => at_boundary thatp s
  | k :: kw' =>
      match s with
      | c :: s' => ci_eq k c && match_tail (is_word c) s' kw'
      | [] => false
      end
  end.

(** [\b kw \b] matched in front of [s]. *)
Definition keyword_matches (thatp : bool) (s kw : pystr) : bool :=
  at_boundary thatp s && match_tail thatp s kw.

(** The length of the match of [FORBIDDEN_PATTERN] that [re.sub] replaces
    at the position in front of [s]: the first alternative, in the order of
    the list, that matches there. An empty alternative yields only empty
    matches; replacing one by the empty string changes nothing, and the
    scan then retries the same position for a non-empty match, so the
    empty alternatives are passed over. *)
Definition forbidden_match (kws : list pystr) (thatp : bool) (s : pystr)
  : option nat :=
  length <$> find (fun kw => truthy kw && keyword_matches thatp s kw) kws.

(** [FORBIDDEN_PATTERN.sub("", s)], scanning left to right; [skip] counts
    the characters of the current match still to pass. *)
Fixpoint sub_forbidden_go (kws : list pystr) (thatp : bool) (skip : nat)
    (s : pystr) : pystr :=
  match s with
  | [] => []
  | c :: s' =>
      match skip with
      | S k => sub_forbidden_go kws (is_word c) k s'
      | O =>
          match forbidden_match kws thatp s with
          | Some n => sub_forbidden_go kws (is_word c) (Nat.pred n) s'
          | None => c :: sub_forbidden_go kws (is_word c) 0 s'
          end
      end
  end.

Definition sub_forbidden (kws : list pystr) (s : pystr) : pystr :=
  sub_forbidden_go kws false 0 s.

(** The number of leading white-space characters: a greedy [\s*]. *)
Fixpoint spaces (s : pystr) : nat :=
  match s with
  | c :: s' => if is_space c then S (spaces s') else O
  | [] => O
  end.

Definition is_dash (c : ascii) : bool := Ascii.eqb c "-"%char.

(** The length of the match of [\s*-\s*-\s*] in front of [s]. A dash is
    not white space, so giving back part of a greedy [\s*] never makes the
    following dash match: the greedy attempt decides. *)
Definition dashes_match (s : pystr) : option nat :=
  let a := spaces s in
  match drop a s with
  | d1 :: s1 =>
      if is_dash d1 then
        let b := spaces s1 in
        match drop b s1 with
        | d2 :: s2 =>
            if is_dash d2 then Some (a + 1 + b + 1 + spaces s2)%nat else None
        | [] => None
        end
      else None
  | [] => None
  end.

(** [re.sub(r'\s*-\s*-\s*', ' - ', s)]. *)
Fixpoint sub_dashes_go (skip : nat) (s : pystr) : pystr :=
  match s with
  | [] => []
  | c :: s' =>
      match skip with
      | S k => sub_dashes_go k s'
      | O =>
          match dashes_match s with
          | Some n => str " - " ++ sub_dashes_go (Nat.pred n) s'
          | None => c :: sub_dashes_go 0 s'
          end
      end
  end.

Definition sub_dashes (s : pystr) : pystr := sub_dashes_go 0 s.

(** The characters of [' -']. *)
Definition is_space_or_dash (c : ascii) : bool :=
  Ascii.eqb c " "%char || is_dash c.

(** [pre_sanitized_title] of [_anonymize_title]: stage 1. The pattern is
    compiled only for a non-empty keyword list. *)
Definition pre_sanitized_title (cfg : Config) (title : pystr) : pystr :=
  match FORBIDDEN_KEYWORDS cfg with
  | [] => title
  | kws =>
      let t1 := strip is_space (sub_forbidden kws title) in
      let t2 := sub_dashes t1 in
      strip is_space_or_dash t2
  end.

(** [_anonymize_title]. [sanitized_title] is the outcome of its one call of
    [_run_command], whose prompt is a fixed text around
    [pre_sanitized_title]. The result is [None] when that call raises. *)
Definition _anonymize_title (cfg : Config) (sanitized_title : CmdOutcome)
    (title : pystr) : option pystr :=
  match sanitized_title with
  | Output s => Some s
  | NoResult => Some (pre_sanitized_title cfg title)
  | Raises => None
  end.

(** ** The query tool [get_activity_log] *)

(** A row of the table [activity], as [fetchall] returns it:
    [List[Tuple[str, str, int]]]. The column [apm] is tested against [None]
    by the code, hence the option. *)
Record Row := {
  timestamp : Z;
  active_title : pystr;
  apm : option Z
}.

(** An entry of [timeline]. *)
Record Block := {
  block_start : Z;
  block_duration : Z;
  block_title : pystr;
  block_avg_apm : Z
}.

(** [title and "USER_AFK" not in title]. *)
Definition to_redact (title : pystr) : bool :=
  truthy title && negb (contains title (str "USER_AFK")).

Definition unique_titles (raw_rows : list Row) : gset pystr :=
  list_to_set (filter (fun t => Is_true (to_redact t))
                      (active_title <$> raw_rows)).

Definition titles_to_anonymize (cache : gmap pystr pystr)
    (titles : gset pystr) : list pystr :=
  filter (fun t => cache !! t = None) (elements titles).

(** The loop over the futures: one call of [_anonymize_title] per title,
    its result, or the title itself when the call raised, written to the
    cache. [ollama t] is the outcome of the external call made for [t]. *)
Definition fill_cache (cfg : Config) (ollama : pystr -> CmdOutcome)
    (cache : gmap pystr pystr) (todo : list pystr) : gmap pystr pystr :=
  foldl (fun c original_title =>
           match _anonymize_title cfg (ollama original_title)
                                  original_title with
           | Some sanitized_result => <[original_title := sanitized_result]> c
           | None => <[original_title := original_title]> c
           end)
        cache todo.

Definition anonymization_map (cache : gmap pystr pystr)
    (titles : gset pystr) : gmap pystr pystr :=
  set_to_map (fun title => (title, default title (cache !! title))) titles.

(** [int(statistics.mean(values)) if values else 0]. The mean of integers
    is their exact quotient and [int] truncates it towards zero; the
    conversion to a float in between does not change the result while the
    sum stays below 2^53. *)
Definition avg_apm (values : list Z) : Z :=
  match values with
  | [] => 0
  | _ => Z.quot (foldr Z.add 0 values) (Z.of_nat (length values))
  end.

(** The variables of the loop over [raw_rows]. [current_block] holds
    [current_block_title] and [current_block_start_time], which are [None]
    together. *)
Record Compressor := {
  timeline : list Block;
  current_block : option (pystr * Z);
  current_block_apm_values : list Z
}.

Definition compressor_init : Compressor :=
  {| timeline := []; current_block := None; current_block_apm_values := [] |}.

Definition close_block (st : Compressor) (until : Z) : list Block :=
  match current_block st with
  | Some (title, start) =>
      timeline st ++
        [ {| block_start := start; block_duration := until - start;
             block_title := title;
             block_avg_apm := avg_apm (current_block_apm_values st) |} ]
  | None => timeline st
  end.

(** [anonymization_map.get(title, title)]. *)
Definition map_get (amap : gmap pystr pystr) (title : pystr) : pystr :=
  default title (amap !! title).

(** The body of [for timestamp_iso, title, apm in raw_rows]. *)
Definition compress_row (amap : gmap pystr pystr) (st : Compressor)
    (row : Row) : Compressor :=
  let anonymized_title := map_get amap (active_title row) in
  if bool_decide (Some anonymized_title = fst <$> current_block st) then
    match apm row with
    | Some a =>
        {| timeline := timeline st; current_block := current_block st;
           current_block_apm_values := current_block_apm_values st ++ [a] |}
    | None => st
    end
  else
    {| timeline := close_block st (timestamp row);
       current_block := Some (anonymized_title, timestamp row);
       current_block_apm_values :=
         match apm row with Some a => [a] | None => [] end |}.

Definition compress_rows (amap : gmap pystr pystr) (raw_rows : list Row)
  : Compressor :=
  foldl (compress_row amap) compressor_init raw_rows.

(** [timeline] after the loop and the closing of the open block. *)
Definition build_timeline (amap : gmap pystr pystr) (raw_rows : list Row)
    (now : Z) : list Block :=
  close_block (compress_rows amap raw_rows) now.

Definition two_digits (n : Z) : pystr :=
  if n <? 10 then str "0" ++ str_of_Z n else str_of_Z n.

(** [start.strftime('%H:%M')]. *)
Definition strftime_HM (t : Z) : pystr :=
  let minutes := t / 60000000 in
  two_digits ((minutes / 60) mod 24) ++ str ":" ++ two_digits (minutes mod 60).

Definition newline : pystr := ["010"%char].

(** The body of [for start, duration, title, avg_apm in timeline]. *)
Definition render_block (cfg : Config) (timeline_str : pystr) (b : Block)
  : pystr :=
  if 2 * block_duration b <? microseconds_of_seconds (LOG_INTERVAL_SECONDS cfg)
  then timeline_str
  else
    let start_f := strftime_HM (block_start b) in
    let duration_f := _format_duration_compact (block_duration b) in
    if contains (block_title b) (str "USER_AFK") then
      timeline_str ++ start_f ++ str " (" ++ duration_f ++ str "): "
        ++ block_title b ++ newline
    else
      timeline_str ++ start_f ++ str " (" ++ duration_f ++ str "): (Avg APM: "
        ++ str_of_Z (block_avg_apm b) ++ str ") " ++ block_title b ++ newline.

Definition header (hours_ago : Z) : pystr :=
  str "Timeline of focused windows & AFK status (last " ++ str_of_Z hours_ago
    ++ str "h):" ++ newline.

Definition render (cfg : Config) (hours_ago : Z) (tl : list Block) : pystr :=
  strip is_space (foldl (render_block cfg) (header hours_ago) tl).

(** What one call leaves behind: the returned text, the cache, and the
    titles for which [_anonymize_title] was submitted. *)
Record LogResult := {
  output : pystr;
  anonymization_cache : gmap pystr pystr;
  submitted : list pystr
}.

(** [get_activity_log]. [fetch] is the result of the query, [None] for an
    [sqlite3.Error]; [now] is the clock when the open block is closed. *)
Definition get_activity_log (cfg : Config) (ollama : pystr -> CmdOutcome)
    (cache : gmap pystr pystr) (fetch : option (list Row)) (now : Z)
    (hours_ago : Z) : LogResult :=
  let hours_ago := Z.max 1 (Z.min hours_ago (LOG_RETENTION_HOURS cfg)) in
  match fetch with
  | None =>
      {| output := str "Error: Could not retrieve data from the activity log.";
         anonymization_cache := cache; submitted := [] |}
  | Some [] =>
      {| output := str "No activity recorded in the last "
                     ++ str_of_Z hours_ago ++ str " hour(s).";
         anonymization_cache := cache; submitted := [] |}
  | Some raw_rows =>
      let titles := unique_titles raw_rows in
      let todo := titles_to_anonymize cache titles in
      let cache' := fill_cache cfg ollama cache todo in
      let amap := anonymization_map cache' titles in
      {| output := render cfg hours_ago (build_timeline amap raw_rows now);
         anonymization_cache := cache'; submitted := todo |}
  end.

(** ** Section 6: the background loops, one cycle each *)

(** One pass of the loop of [_apm_counter_thread] after the sleep:
    [current_idle_time] is what [_get_idle_time_ms] returned, [now] the
    clock. The state is [last_idle_time] and the deque [activity_ticks]. *)
Definition apm_counter_cycle (cfg : Config) (current_idle_time : option Z)
    (now : Z) (st : Z * list Z) : Z * list Z :=
  let '(last_idle_time, activity_ticks) := st in
  match current_idle_time with
  | None => st
  | Some idle =>
      if idle <? last_idle_time + poll_interval_ms cfg
      then (idle, activity_ticks ++ [now])
      else (idle, activity_ticks)
  end.

(** [while activity_ticks and activity_ticks[0] < one_minute_ago:
    activity_ticks.popleft()]. *)
Fixpoint evict (one_minute_ago : Z) (activity_ticks : list Z) : list Z :=
  match activity_ticks with
  | t :: rest =>
      if t <? one_minute_ago then evict one_minute_ago rest
      else activity_ticks
  | [] => []
  end.

(** The block under [activity_lock] in [log_activity_periodically]: the
    deque after the eviction and [apm_count]. *)
Definition evict_and_count (cfg : Config) (now : Z) (activity_ticks : list Z)
  : list Z * Z :=
  let one_minute_ago := now - microseconds_of_seconds (APM_WINDOW_SECONDS cfg) in
  let remaining := evict one_minute_ago activity_ticks in
  (remaining, Z.of_nat (length remaining)).

(** The collaborators a recorder cycle can consult. *)
Inductive Call :=
| IsScreenLocked
| GetActiveWindowTitle.

(** What the environment answers during one cycle of
    [log_activity_periodically]: the lock state, the window title, the
    three readings of the clock, and whether the storage accepts the
    transaction. *)
Record Env := {
  screen_locked : bool;
  window_title : option pystr;
  now_window : Z;
  now_insert : Z;
  now_cutoff : Z;
  storage_ok : bool
}.

(** The shared state a cycle works on: the deque and the table [activity],
    a map from the primary key [timestamp] to the other two columns. *)
Record World := {
  activity_ticks : list Z;
  activity : gmap Z (pystr * Z)
}.

(** [INSERT OR IGNORE INTO activity]. *)
Definition insert_or_ignore (ts : Z) (title : pystr) (apm : Z)
    (table : gmap Z (pystr * Z)) : gmap Z (pystr * Z) :=
  match table !! ts with
  | Some _ => table
  | None => <[ts := (title, apm)]> table
  end.

(** [DELETE FROM activity WHERE timestamp < ?]. *)
Definition delete_before (cutoff : Z) (table : gmap Z (pystr * Z))
  : gmap Z (pystr * Z) :=
  filter (fun kv => ¬ (kv.1 < cutoff)) table.

(** [x or "Desktop"] for an optional string. *)
Definition or_desktop (x : option pystr) : pystr :=
  match x with
  | Some t => if truthy t then t else str "Desktop"
  | None => str "Desktop"
  end.

(** One pass of the loop of [log_activity_periodically] after the sleep.
    Returns the new state and the collaborators consulted, in order. *)
Definition log_activity_cycle (cfg : Config) (env : Env) (w : World)
  : World * list Call :=
  let '(final_title, apm_count, ticks, calls) :=
    if screen_locked env then
      (str "USER_AFK_LOCKED", 0, activity_ticks w, [IsScreenLocked])
    else
      let '(ticks, apm_count) :=
        evict_and_count cfg (now_window env) (activity_ticks w) in
      let raw_title := or_desktop (window_title env) in
      (_sanitize_window_title cfg raw_title, apm_count, ticks,
       [IsScreenLocked; GetActiveWindowTitle]) in
  let table :=
    if storage_ok env then
      delete_before
        (now_cutoff env - microseconds_of_hours (LOG_RETENTION_HOURS cfg))
        (insert_or_ignore (now_insert env) final_title apm_count (activity w))
    else activity w in
  ({| activity_ticks := ticks; activity := table |}, calls).

(** ** The collaborators of section 5 *)

(** What [subprocess.run] does under [check=True] and a time-out: it
    completes with an exit status and its output, it times out, or it
    raises something else (the program cannot be started, the output cannot
    be decoded). *)
Inductive ProcessResult :=
| Completed (returncode : Z) (stdout stderr : pystr)
| TimeoutExpired
| OtherError.

(** [_run_command]: a non-zero exit status is a [CalledProcessError]. *)
Definition _run_command (run : ProcessResult) : CmdOutcome :=
  match run with
  | Completed returncode stdout _ =>
      if returncode =? 0 then Output (strip is_space stdout) else NoResult
  | TimeoutExpired => NoResult
  | OtherError => Raises
  end.

(** [_get_active_window_title]: [_run_command] on [xdotool]. *)
Definition _get_active_window_title (xdotool : ProcessResult) : CmdOutcome :=
  _run_command xdotool.

(** The services [_is_screen_locked] asks, in this order. *)
Definition screen_saver_services : list pystr :=
  [str "org.freedesktop.ScreenSaver"; str "org.gnome.ScreenSaver";
   str "org.cinnamon.ScreenSaver"; str "org.mate.ScreenSaver"].

(** The loop over the services: [get_active service] is
    [bool(bus.get(service, timeout=2).GetActive())], [None] when that
    raises. *)
Fixpoint first_active (get_active : pystr -> option bool)
    (services : list pystr) : bool :=
  match services with
  | [] => false
  | service :: rest =>
      match get_active service with
      | Some active => active
      | None => first_active get_active rest
      end
  end.

(** [_is_screen_locked]. [session_bus] is [None] when [SessionBus()]
    raises. *)
Definition _is_screen_locked (session_bus : option (pystr -> option bool))
  : bool :=
  match session_bus with
  | Some get_active => first_active get_active screen_saver_services
  | None => false
  end.

(** A character of a string for which [str.isdigit] holds: a decimal digit
    or one of the superscripts one, two and three. *)
Definition is_digit_char (c : ascii) : bool :=
  in_range 48 57 c || (code c =? 178)%N || (code c =? 179)%N
  || (code c =? 185)%N.

(** [s.isdigit()]. *)
Definition isdigit (s : pystr) : bool := truthy s && forallb is_digit_char s.

(** [int(s)] for a string that passed [isdigit]: the decimal reading of
    its digits, [None] (a [ValueError]) when one of them is a superscript. *)
Definition int_of_digits (s : pystr) : option Z :=
  Z.of_uint <$> NilEmpty.uint_of_string (string_of_list_ascii s).

(** What [_get_idle_time_ms] does: it returns a number, returns [None], or
    raises. *)
Inductive IdleOutcome :=
| IdleMs (ms : Z)
| IdleNone
| IdleRaises.

(** [_get_idle_time_ms]; [result] is the outcome of [_run_command] on
    [xprintidle]. *)
Definition _get_idle_time_ms (result : CmdOutcome) : IdleOutcome :=
  match result with
  | Output out =>
      if truthy out && isdigit out then
        match int_of_digits out with
        | Some ms => IdleMs ms
        | None => IdleRaises
        end
      else IdleNone
  | NoResult => IdleNone
  | Raises => IdleRaises
  end.

(** ** The query of [get_activity_log] *)

(** [hours_ago = max(1, min(hours_ago, config.LOG_RETENTION_HOURS))]. *)
Definition clamp_hours (cfg : Config) (hours_ago : Z) : Z :=
  Z.max 1 (Z.min hours_ago (LOG_RETENTION_HOURS cfg)).

(** A row of the table as [fetchall] returns it. *)
Definition row_of (kv : Z * (pystr * Z)) : Row :=
  {| timestamp := kv.1; active_title := kv.2.1; apm := Some kv.2.2 |}.

Definition timestamp_le (r1 r2 : Row) : Prop := timestamp r1 <= timestamp r2.

#[global] Instance timestamp_le_dec (r1 r2 : Row) :
  Decision (timestamp_le r1 r2) :=
  Z_le_dec _ _.

(** [SELECT timestamp, active_title, apm FROM activity WHERE timestamp >= ?
    ORDER BY timestamp]. *)
Definition select_since (start_time : Z) (table : gmap Z (pystr * Z))
  : list Row :=
  merge_sort timestamp_le
    (row_of <$> map_to_list (filter (fun kv => start_time <= kv.1) table)).

(** [get_activity_log] on the table: [now_query] is the clock when
    [start_time_iso] is computed, [now] when the open block is closed. *)
Definition get_activity_log_on (cfg : Config) (ollama : pystr -> CmdOutcome)
    (cache : gmap pystr pystr) (table : gmap Z (pystr * Z))
    (now_query now : Z) (hours_ago : Z) : LogResult :=
  let start_time :=
    now_query - microseconds_of_hours (clamp_hours cfg hours_ago) in
  get_activity_log cfg ollama cache (Some (select_since start_time table))
                   now hours_ago.

(** ** The two loops side by side *)

(** The two threads take [activity_lock] around what they do to the deque,
    so a run of the program is a sequence of passes of the two loops, in
    the order in which they take the lock. The sampler reads the clock
    while it holds the lock ([activity_ticks.append(datetime.now())]); the
    recorder reads [now] before it takes the lock, so a pass of the sampler
    that precedes a pass of the recorder in that order can have read a
    later clock than [now_window]. *)
Inductive Event :=
| Poll (current_idle_time : option Z) (now : Z)
| Snapshot (env : Env).

Record System := {
  last_idle_time : Z;
  world : World
}.

Definition system_step (cfg : Config) (s : System) (e : Event) : System :=
  match e with
  | Poll current_idle_time now =>
      let st := apm_counter_cycle cfg current_idle_time now
                  (last_idle_time s, activity_ticks (world s)) in
      {| last_idle_time := st.1;
         world := {| activity_ticks := st.2;
                     activity := activity (world s) |} |}
  | Snapshot env =>
      {| last_idle_time := last_idle_time s;
         world := (log_activity_cycle cfg env (world s)).1 |}
  end.

Definition system_run (cfg : Config) (s : System) (events : list Event)
  : System :=
  foldl (system_step cfg) s events.



(** The state at the start: an empty deque and an empty table;
    [last_idle_time] is [_get_idle_time_ms() or 0]. *)
Definition system_init (last_idle_time : Z) : System :=
  {| last_idle_time := last_idle_time;
     world := {| activity_ticks := []; activity := ∅ |} |}.

(** * Vocabulary of the statements *)

(** The notions the statements below use for strings: [suf] is an ending
    of [s], [p] occurs in [s], the last [k] characters of [s]. *)
Definition ends_with (s suf : pystr) : Prop := exists a, s = a ++ suf.
Definition occurs_in (p s : pystr) : Prop := exists a b, s = a ++ p ++ b.
Definition last_chars (k : nat) (s : pystr) : pystr := drop (length s - k) s.

(** [x] is the first element of [l] with the property [P]. *)
Definition first_with {A} (P : A -> Prop) (l : list A) (x : A) : Prop :=
  exists i, l !! i = Some x /\ P x /\
            forall j y, (j < i)%nat -> l !! j = Some y -> ~ P y.

(** A configuration to evaluate the functions on. *)
Definition example_config : Config := {|
  KNOWN_BROWSERS := [str "Mozilla Firefox"; str "Google Chrome"];
  TITLE_CLEANUP_RULES :=
    [(str "YouTube", str "YouTube"); (str "GitHub", str "GitHub")];
  MAX_TITLE_LENGTH := 70;
  FORBIDDEN_KEYWORDS := [str "alice"; str "acme, inc"];
  LOG_INTERVAL_SECONDS := 60;
  LOG_RETENTION_HOURS := 24;
  APM_WINDOW_SECONDS := 60;
  poll_interval_ms := 100
|}.


(** The time of day [h:m:s] of the reference day, in microseconds. *)
Definition at_time (h m s : Z) : Z := ((h * 60 + m) * 60 + s) * 1000000.

(** *** Run-length compression, as the specification words it

    A run is a maximal stretch of consecutive rows with the same label; it
    starts at the time stamp of its first row and collects the [apm]
    values of its rows. *)
Record Run := {
  run_label : pystr;
  run_start : Z;
  run_values : list Z
}.

Definition cons_run (r : Run) (rs : list Run) : list Run :=
  match rs with
  | next :: more =>
      if bool_decide (run_label r = run_label next)
      then {| run_label := run_label r; run_start := run_start r;
              run_values := run_values r ++ run_values next |} :: more
      else r :: rs
  | [] => [r]
  end.

Definition run_of_row (amap : gmap pystr pystr) (row : Row) : Run :=
  {| run_label := map_get amap (active_title row);
     run_start := timestamp row;
     run_values := option_list (apm row) |}.

Fixpoint runs (amap : gmap pystr pystr) (rows : list Row) : list Run :=
  match rows with
  | [] => []
  | row :: rest => cons_run (run_of_row amap row) (runs amap rest)
  end.

(** The integer mean of a list of integers, 0 for the empty list. *)
Definition integer_mean (values : list Z) : Z :=
  match values with
  | [] => 0
  | _ => Z.quot (foldr Z.add 0 values) (Z.of_nat (length values))
  end.

(** A run lasts until the next run starts, the last one until [now]. *)
Fixpoint blocks_of_runs (rs : list Run) (now : Z) : list Block :=
  match rs with
  | [] => []
  | r :: rest =>
      let until := match rest with next :: _ => run_start next | [] => now end in
      {| block_start := run_start r; block_duration := until - run_start r;
         block_title := run_label r;
         block_avg_apm := integer_mean (run_values r) |}
      :: blocks_of_runs rest now
  end.

(** The number of adjacent pairs of labels that differ. *)
Fixpoint label_changes (labels : list pystr) : nat :=
  match labels with
  | a :: rest =>
      match rest with
      | b :: _ => (if bool_decide (a = b) then 0 else 1) + label_changes rest
      | [] => 0
      end
  | [] => 0
  end%nat.

(** *** Rendering, as the specification words it *)

(** A block is kept when it lasts at least half of [LOG_INTERVAL_SECONDS]. *)
Definition long_enough (cfg : Config) (b : Block) : Prop :=
  microseconds_of_seconds (LOG_INTERVAL_SECONDS cfg) <= 2 * block_duration b.

#[global] Instance long_enough_dec (cfg : Config) (b : Block) :
  Decision (long_enough cfg b) :=
  Z_le_dec _ _.

(** The line of a block in the text that [get_activity_log] returns. *)
Definition block_line (b : Block) : pystr :=
  strftime_HM (block_start b) ++ str " ("
    ++ _format_duration_compact (block_duration b) ++ str "): "
    ++ (if contains (block_title b) (str "USER_AFK") then []
        else str "(Avg APM: " ++ str_of_Z (block_avg_apm b) ++ str ") ")
    ++ block_title b ++ newline.

(** The line of a block in the format the specification gives:
    [HH:MM (duration) label] for a block of the AFK sentinel and
    [HH:MM (duration) (Avg APM: n) label] for any other. *)
Definition spec_line (b : Block) : pystr :=
  strftime_HM (block_start b) ++ str " ("
    ++ _format_duration_compact (block_duration b) ++ str ") "
    ++ (if bool_decide (block_title b = str "USER_AFK_LOCKED") then []
        else str "(Avg APM: " ++ str_of_Z (block_avg_apm b) ++ str ") ")
    ++ block_title b.

(** *** Whole-word matches, as the specification words them *)

(** Whether the last character of [a] is a word character; the start of
    the string counts as a non-word character. *)
Definition last_is_word (a : pystr) : bool :=
  match last a with Some c => is_word c | None => false end.

(** Two characters that differ at most in case. *)
Definition same_letter (k c : ascii) : Prop := lower k = lower c.

(** [kw] occurs in [s] as a whole word, the case of letters ignored: a part
    [m] of [s] spells [kw], and a word character meets a non-word character
    or an end of [s] on each side of [m]. *)
Definition whole_word_occurrence (kw s : pystr) : Prop :=
  exists a m b,
    s = a ++ m ++ b /\ kw <> [] /\ Forall2 same_letter kw m
    /\ last_is_word a <> head_is_word (m ++ b)
    /\ last_is_word (a ++ m) <> head_is_word b.

(** [spaced thatp kw]: after a character of class [thatp], [kw] has no two
    non-word characters in a row and ends with a word character. *)
Fixpoint spaced (thatp : bool) (kw : pystr) : bool :=
  match kw with
  | [] => thatp
  | k :: kw' => (thatp || is_word k) && spaced (is_word k) kw'
  end.

(** A keyword that starts and ends with word characters and never has two
    non-word characters in a row, such as a name, a full name, or an
    e-mail address. *)
Definition plain_keyword (kw : pystr) : bool := spaced false kw.

(** The class of the last character of [l], [thatp] for an empty [l]. *)
Definition word_after (thatp : bool) (l : pystr) : bool :=
  match last l with Some c => is_word c | None => thatp end.

(** No keyword matches at any position of [s], entered after a character
    of class [thatp]. *)
Fixpoint clean (kws : list pystr) (thatp : bool) (s : pystr) : Prop :=
  (forall kw, kw ∈ kws -> keyword_matches thatp s kw = false)
  /\ match s with
     | [] => True
     | c :: s' => clean kws (is_word c) s'
     end.

(** *** Inputs to evaluate the functions on *)

Definition afk_row (t : Z) : Row :=
  {| timestamp := t; active_title := str "USER_AFK_LOCKED"; apm := Some 0 |}.

(** Three consecutive snapshots of a locked screen. *)
Definition afk_rows : list Row :=
  [afk_row (at_time 10 0 0); afk_row (at_time 10 1 0);
   afk_row (at_time 10 2 0)].

(** A cycle of the recorder at 10:00:00 with the screen locked. *)
Definition locked_env : Env :=
  {| screen_locked := true; window_title := Some (str "Editor");
     now_window := at_time 10 0 0; now_insert := at_time 10 0 0;
     now_cutoff := at_time 10 0 0; storage_ok := true |}.

Definition empty_world : World :=
  {| activity_ticks := []; activity := ∅ |}.

(** A cycle with the screen unlocked and a browser window in front. *)
Definition unlocked_env : Env :=
  {| screen_locked := false;
     window_title := Some (str "cats - YouTube - Mozilla Firefox");
     now_window := at_time 10 0 0; now_insert := at_time 10 0 0;
     now_cutoff := at_time 10 0 0; storage_ok := true |}.

(** A deque of two ticks and a table of two rows. *)
Definition example_world : World :=
  {| activity_ticks := [at_time 9 58 30; at_time 9 59 40];
     activity := <[at_time 9 58 0 := (str "USER_AFK_LOCKED", 0)]>
                   (<[at_time 9 59 0 := (str "Editor", 12)]> ∅) |}.

(** Four snapshots a minute apart: an editor twice, the locked screen, a
    mail window. *)
Definition example_rows : list Row :=
  [ {| timestamp := at_time 10 0 0; active_title := str "Editor";
       apm := Some 4 |};
    {| timestamp := at_time 10 1 0; active_title := str "Editor";
       apm := Some 6 |};
    {| timestamp := at_time 10 2 0; active_title := str "USER_AFK_LOCKED";
       apm := Some 0 |};
    {| timestamp := at_time 10 3 0; active_title := str "Mail";
       apm := Some 2 |} ].

(** A timeline of two blocks of two and three minutes. *)
Definition example_timeline : list Block :=
  [ {| block_start := at_time 10 0 0; block_duration := 120000000;
       block_title := str "A"; block_avg_apm := 6 |};
    {| block_start := at_time 10 2 0; block_duration := 180000000;
       block_title := str "USER_AFK_LOCKED"; block_avg_apm := 0 |} ].

(** *** The table of snapshots *)

(** Every row has a non-empty title and a non-negative [apm]. *)
Definition table_ok (table : gmap Z (pystr * Z)) : Prop :=
  map_Forall (fun _ row => truthy row.1 = true /\ 0 <= row.2) table.

(** *** A cache without keywords *)

(** No value of the cache has a whole-word occurrence of a keyword. *)
Definition cache_clean (kws : list pystr) (cache : gmap pystr pystr) : Prop :=
  map_Forall (fun _ label =>
                forall kw, kw ∈ kws -> ~ whole_word_occurrence kw label) cache.

(** The example configuration with a name and a full name as keywords. *)
Definition names_config : Config := {|
  KNOWN_BROWSERS := KNOWN_BROWSERS example_config;
  TITLE_CLEANUP_RULES := TITLE_CLEANUP_RULES example_config;
  MAX_TITLE_LENGTH := MAX_TITLE_LENGTH example_config;
  FORBIDDEN_KEYWORDS := [str "alice"; str "John Smith"];
  LOG_INTERVAL_SECONDS := LOG_INTERVAL_SECONDS example_config;
  LOG_RETENTION_HOURS := LOG_RETENTION_HOURS example_config;
  APM_WINDOW_SECONDS := APM_WINDOW_SECONDS example_config;
  poll_interval_ms := poll_interval_ms example_config
|}.

(** * Properties *)

(** ** Strings *)

Lemma startswith_spec (s p : pystr) :
  startswith s p = true <-> exists b, s = p ++ b.
Proof.
  revert s; induction p as [|k p IH]; intros s; simpl.
  - split; eauto.
  - destruct s as [|c s].
    + split; [discriminate | intros [b Hb]; discriminate].
    + rewrite andb_true_iff, Ascii.eqb_eq, IH. split.
      * intros [-> [b ->]]. eauto.
      * intros [b Hb]. injection Hb as -> ->. eauto.
Qed.

Lemma endswith_spec (s suf : pystr) :
  endswith s suf = true <-> ends_with s suf.
Proof.
  unfold endswith, ends_with. rewrite startswith_spec. split.
  - intros [b Hb]. exists (rev b).
    apply (f_equal (@rev ascii)) in Hb.
    rewrite rev_involutive, rev_app_distr, rev_involutive in Hb. exact Hb.
  - intros [a ->]. exists (rev a). apply rev_app_distr.
Qed.

Lemma contains_spec (s p : pystr) :
  contains s p = true <-> occurs_in p s.
Proof.
  unfold occurs_in. induction s as [|c s IH].
  - simpl. rewrite orb_false_r, startswith_spec. split.
    + intros [b Hb]. exists [], b. exact Hb.
    + intros (a & b & Hab). destruct a; [eauto | discriminate].
  - simpl. rewrite orb_true_iff, startswith_spec, IH. split.
    + intros [[b Hb] | (a & b & Hab)].
      * exists [], b. exact Hb.
      * exists (c :: a), b. simpl. now rewrite Hab.
    + intros (a & b & Hab). destruct a as [|c' a].
      * left. eauto.
      * right. injection Hab as _ ->. eauto.
Qed.

Lemma find_first_with {A} (f : A -> bool) (l : list A) (x : A) :
  find f l = Some x <-> first_with (fun y => f y = true) l x.
Proof.
  unfold first_with. induction l as [|a l IH]; simpl.
  - split; [discriminate | intros (i & Hi & _); destruct i; discriminate].
  - destruct (f a) eqn:Hfa.
    + split.
      * intros [= ->]. exists 0%nat. repeat split; [done | lia].
      * intros (i & Hi & Hx & Hmin). destruct i as [|i]; simpl in Hi; [congruence |].
        exfalso. apply (Hmin 0%nat a); [lia | done | done].
    + rewrite IH. split.
      * intros (i & Hi & Hx & Hmin). exists (S i). repeat split; [done..|].
        intros [|j] y Hj Hy; simpl in Hy; [congruence |].
        apply (Hmin j); [lia | done].
      * intros (i & Hi & Hx & Hmin). destruct i as [|i]; [simpl in Hi; congruence |].
        exists i. repeat split; [done..|].
        intros j y Hj Hy. apply (Hmin (S j)); [lia | done].
Qed.

Lemma find_none_iff {A} (f : A -> bool) (l : list A) :
  find f l = None <-> forall y, y ∈ l -> f y = false.
Proof.
  induction l as [|a l IH]; simpl.
  - split; [intros _ y Hy; inversion Hy | done].
  - destruct (f a) eqn:Hfa.
    + split; [discriminate |]. intros H. rewrite H in Hfa; [done | left].
    + rewrite IH. split.
      * intros H y Hy. inversion Hy; subst; auto.
      * intros H y Hy. apply H. now right.
Qed.

Lemma first_with_ext {A} (P Q : A -> Prop) (l : list A) (x : A) :
  (forall y, P y <-> Q y) -> first_with P l x <-> first_with Q l x.
Proof.
  intros HPQ. unfold first_with.
  split; intros (i & Hi & Hx & Hmin); exists i;
    (repeat split; [done | by apply HPQ |]);
    intros j y Hj Hy HP; apply (Hmin j y Hj Hy); by apply HPQ.
Qed.

Lemma first_with_unique {A} (P : A -> Prop) (l : list A) (x y : A) :
  first_with P l x -> first_with P l y -> x = y.
Proof.
  intros (i & Hi & Hx & Hmi) (j & Hj & Hy & Hmj).
  destruct (Nat.lt_trichotomy i j) as [Hlt | [-> | Hlt]].
  - exfalso. by apply (Hmj i x).
  - congruence.
  - exfalso. by apply (Hmi j y).
Qed.

Lemma first_with_exists {A} (f : A -> bool) (l : list A) :
  (exists y, y ∈ l /\ f y = true) ->
  exists x, first_with (fun y => f y = true) l x.
Proof.
  intros (y & Hin & Hy). destruct (find f l) as [x|] eqn:Hfind.
  - exists x. by apply find_first_with.
  - apply (proj1 (find_none_iff f l)) with (y := y) in Hfind; [| done].
    congruence.
Qed.

(** ** The title sanitizer *)

Lemma slice_from_last (s : pystr) (k : Z) :
  0 < k -> slice_from s (- k) = last_chars (Z.to_nat k) s.
Proof.
  intros Hk. unfold slice_from, last_chars.
  destruct (Z.ltb_spec (- k) 0) as [_ | ?]; [| lia].
  f_equal. lia.
Qed.

(** C6. [_sanitize_window_title], for a configuration whose browser names
    are non-empty and whose [MAX_TITLE_LENGTH] exceeds 3: when the title
    ends with a known browser name and some cleanup keyword occurs in it, the
    result is the clean name of the first such keyword, [" - "], and the
    first such browser name; otherwise a title longer than
    [MAX_TITLE_LENGTH] becomes ["..."] followed by its last
    [MAX_TITLE_LENGTH - 3] characters, and any other title is returned
    unchanged. *)
Theorem sanitize_window_title_cases (cfg : Config) (title : pystr) :
  forallb truthy (KNOWN_BROWSERS cfg) = true ->
  3 < MAX_TITLE_LENGTH cfg ->
  ((exists b, b ∈ KNOWN_BROWSERS cfg /\ ends_with title b) ->
   (exists r, r ∈ TITLE_CLEANUP_RULES cfg /\ occurs_in r.1 title) ->
   exists browser rule,
     first_with (ends_with title) (KNOWN_BROWSERS cfg) browser
     /\ first_with (fun r => occurs_in r.1 title) (TITLE_CLEANUP_RULES cfg) rule
     /\ _sanitize_window_title cfg title = rule.2 ++ str " - " ++ browser)
  /\ ((forall b, b ∈ KNOWN_BROWSERS cfg -> ~ ends_with title b)
      \/ (forall r, r ∈ TITLE_CLEANUP_RULES cfg -> ~ occurs_in r.1 title) ->
      (MAX_TITLE_LENGTH cfg < Z.of_nat (length title) ->
       _sanitize_window_title cfg title =
         str "..." ++ last_chars (Z.to_nat (MAX_TITLE_LENGTH cfg - 3)) title)
      /\ (Z.of_nat (length title) <= MAX_TITLE_LENGTH cfg ->
          _sanitize_window_title cfg title = title)).
Proof.
  intros Hbrowsers Hmax.
  assert (Hrest :
    (if Z.of_nat (length title) >? MAX_TITLE_LENGTH cfg
     then str "..." ++ slice_from title (- (MAX_TITLE_LENGTH cfg - 3))
     else title) =
    (if Z.of_nat (length title) >? MAX_TITLE_LENGTH cfg
     then str "..." ++ last_chars (Z.to_nat (MAX_TITLE_LENGTH cfg - 3)) title
     else title)).
  { destruct (_ >? _); [| done]. rewrite slice_from_last by lia. done. }
  unfold _sanitize_window_title. split.
  - intros (b & Hbin & Hbend) (r & Hrin & Hrocc).
    destruct (first_with_exists (endswith title) (KNOWN_BROWSERS cfg))
      as [browser Hb]; [exists b; by rewrite endswith_spec |].
    destruct (first_with_exists (fun rule => contains title rule.1)
                                (TITLE_CLEANUP_RULES cfg))
      as [rule Hr]; [exists r; by rewrite contains_spec |].
    exists browser, rule.
    split; [apply (first_with_ext (fun b => endswith title b = true));
            [intros y; apply endswith_spec | done] |].
    split; [apply (first_with_ext (fun r => contains title r.1 = true));
            [intros y; apply contains_spec | done] |].
    apply find_first_with in Hb. apply find_first_with in Hr.
    rewrite Hb, Hr.
    assert (truthy browser = true) as ->.
    { apply find_some in Hb as [Hin _].
      rewrite forallb_forall in Hbrowsers. by apply Hbrowsers. }
    by destruct rule.
  - intros Hnone.
    assert (Hby :
      match find (endswith title) (KNOWN_BROWSERS cfg) with
      | Some browser =>
          if truthy browser then
            match find (fun rule => contains title rule.1)
                       (TITLE_CLEANUP_RULES cfg) with
            | Some (_, clean_name) => Some (clean_name ++ str " - " ++ browser)
            | None => None
            end
          else None
      | None => None
      end = None).
    { destruct Hnone as [Hnb | Hnr].
      - assert (find (endswith title) (KNOWN_BROWSERS cfg) = None) as ->; [| done].
        apply find_none_iff. intros b Hb.
        destruct (endswith title b) eqn:E; [| done].
        apply endswith_spec in E. by destruct (Hnb b Hb).
      - assert (find (fun rule => contains title rule.1)
                     (TITLE_CLEANUP_RULES cfg) = None) as ->.
        { apply find_none_iff. intros r Hr.
          destruct (contains title r.1) eqn:E; [| done].
          apply contains_spec in E. by destruct (Hnr r Hr). }
        destruct (find _ _); [| done]. by destruct (truthy _). }
    rewrite Hby, Hrest. split; intros Hlen.
    + destruct (Z.gtb_spec (Z.of_nat (length title)) (MAX_TITLE_LENGTH cfg)); [done | lia].
    + destruct (Z.gtb_spec (Z.of_nat (length title)) (MAX_TITLE_LENGTH cfg)); [lia | done].
Qed.

(** ** The tick buffer *)

Lemma evict_below (cutoff : Z) (ticks : list Z) :
  Forall (fun t => cutoff <= t) ticks -> evict cutoff ticks = ticks.
Proof.
  intros H. destruct H as [|t rest Ht _]; simpl; [done |].
  destruct (Z.ltb_spec t cutoff); [lia | done].
Qed.

Lemma filter_all {A} (P : A -> Prop) `{forall x, Decision (P x)} (l : list A) :
  Forall P l -> filter P l = l.
Proof.
  induction 1 as [|x l Hx _ IH]; [done |].
  rewrite filter_cons_True by done. by rewrite IH.
Qed.

Lemma filter_none {A} (P : A -> Prop) `{forall x, Decision (P x)} (l : list A) :
  Forall (fun x => ~ P x) l -> filter P l = [].
Proof.
  induction 1 as [|x l Hx _ IH]; [done |].
  by rewrite filter_cons_False.
Qed.

Lemma evict_sorted (cutoff : Z) (ticks : list Z) :
  StronglySorted Z.le ticks ->
  evict cutoff ticks = filter (fun t => cutoff <= t) ticks
  /\ ticks = filter (fun t => t < cutoff) ticks ++ evict cutoff ticks.
Proof.
  induction 1 as [|t rest Hsorted IH Hall]; simpl; [done |].
  destruct (Z.ltb_spec t cutoff) as [Hlt | Hge].
  - rewrite filter_cons_False by lia. rewrite filter_cons_True by done.
    destruct IH as [IH1 IH2]. split; [done |]. simpl. by rewrite <- IH2.
  - assert (Forall (fun x => cutoff <= x) (t :: rest)) as Hrest.
    { constructor; [done |]. eapply Forall_impl; [exact Hall |].
      simpl. intros; lia. }
    rewrite filter_all by done.
    rewrite filter_none; [done |].
    eapply Forall_impl; [exact Hrest |]. simpl. intros; lia.
Qed.

(** C2. On a deque of ticks in ascending order, the step under
    [activity_lock] removes exactly the ticks older than [now -
    APM_WINDOW_SECONDS], keeps every other tick, the one at exactly that
    instant included, and returns the number of ticks it keeps. *)
Theorem evict_and_count_sorted (cfg : Config) (now : Z) (ticks : list Z) :
  Sorted Z.le ticks ->
  let one_minute_ago :=
    now - microseconds_of_seconds (APM_WINDOW_SECONDS cfg) in
  let kept := filter (fun t => one_minute_ago <= t) ticks in
  let removed := filter (fun t => t < one_minute_ago) ticks in
  (evict_and_count cfg now ticks).1 = kept
  /\ ticks = removed ++ (evict_and_count cfg now ticks).1
  /\ (evict_and_count cfg now ticks).2 = Z.of_nat (length kept).
Proof.
  intros Hsorted. apply Sorted_StronglySorted in Hsorted;
    [| intros x y z; apply Z.le_trans].
  pose proof (evict_sorted
    (now - microseconds_of_seconds (APM_WINDOW_SECONDS cfg)) ticks Hsorted)
    as [Hkept Hsplit].
  unfold evict_and_count. simpl. rewrite <- Hkept. done.
Qed.

(** ** The sampler *)

(** C9. One poll of [_apm_counter_thread]: when the idle time is read as
    [idle], a tick stamped [now] is appended exactly when [idle <
    last_idle_time + poll_interval_ms], and [last_idle_time] becomes [idle]
    either way; when the read fails, neither the deque nor [last_idle_time]
    changes. *)
Theorem apm_counter_cycle_cases (cfg : Config) (last_idle_time : Z)
    (ticks : list Z) (now : Z) :
  (forall idle, idle < last_idle_time + poll_interval_ms cfg ->
     apm_counter_cycle cfg (Some idle) now (last_idle_time, ticks)
     = (idle, ticks ++ [now]))
  /\ (forall idle, last_idle_time + poll_interval_ms cfg <= idle ->
     apm_counter_cycle cfg (Some idle) now (last_idle_time, ticks)
     = (idle, ticks))
  /\ apm_counter_cycle cfg None now (last_idle_time, ticks)
     = (last_idle_time, ticks).
Proof.
  unfold apm_counter_cycle. repeat split.
  - intros idle Hlt.
    destruct (Z.ltb_spec idle (last_idle_time + poll_interval_ms cfg)); [done | lia].
  - intros idle Hge.
    destruct (Z.ltb_spec idle (last_idle_time + poll_interval_ms cfg)); [lia | done].
Qed.

(** ** The recorder *)

Lemma delete_before_lookup (cutoff ts : Z) (table : gmap Z (pystr * Z)) :
  delete_before cutoff table !! ts =
    if decide (ts < cutoff) then None else table !! ts.
Proof.
  unfold delete_before. destruct (table !! ts) as [v|] eqn:Hts.
  - case_decide.
    + apply map_lookup_filter_None. right. intros v' Hv'. simpl. lia.
    + apply map_lookup_filter_Some. done.
  - assert (filter (fun kv : Z * (pystr * Z) => ~ kv.1 < cutoff) table !! ts = None) as ->.
    { apply map_lookup_filter_None. by left. }
    by case_decide.
Qed.

(** C8. A cycle of [log_activity_periodically] that finds the screen
    locked leaves the deque of ticks as it was and consults no collaborator
    but the lock state; when the storage accepts the transaction, the table
    is the old one after [INSERT OR IGNORE] of the row [(now,
    "USER_AFK_LOCKED", 0)] and the pruning, so that this row is in the table
    whenever its time stamp was free and is not older than the retention
    horizon. *)
Theorem locked_cycle (cfg : Config) (env : Env) (w : World) :
  screen_locked env = true ->
  let w' := (log_activity_cycle cfg env w).1 in
  let calls := (log_activity_cycle cfg env w).2 in
  let horizon :=
    now_cutoff env - microseconds_of_hours (LOG_RETENTION_HOURS cfg) in
  activity_ticks w' = activity_ticks w
  /\ calls = [IsScreenLocked]
  /\ (storage_ok env = true ->
      activity w' =
        delete_before horizon
          (insert_or_ignore (now_insert env) (str "USER_AFK_LOCKED") 0
                            (activity w))
      /\ (activity w !! now_insert env = None ->
          horizon <= now_insert env ->
          activity w' !! now_insert env = Some (str "USER_AFK_LOCKED", 0))).
Proof.
  intros Hlocked. unfold log_activity_cycle. rewrite Hlocked. simpl.
  split; [done |]. split; [done |].
  intros ->. split; [done |].
  intros Hfree Hfresh. rewrite delete_before_lookup.
  case_decide; [lia |].
  unfold insert_or_ignore. rewrite Hfree. apply lookup_insert_eq.
Qed.

(** ** The timeline *)

Lemma cons_run_head (r : Run) (rs : list Run) :
  exists x more, cons_run r rs = x :: more
    /\ run_label x = run_label r /\ run_start x = run_start r.
Proof.
  destruct rs as [|next more]; simpl; [by eauto |].
  case_bool_decide; eauto.
Qed.

Lemma cons_run_same (r r' : Run) (rs : list Run) :
  run_label r = run_label r' ->
  cons_run r (cons_run r' rs) =
  cons_run {| run_label := run_label r; run_start := run_start r;
              run_values := run_values r ++ run_values r' |} rs.
Proof.
  intros Hl. destruct rs as [|next more]; simpl.
  - by rewrite bool_decide_eq_true_2.
  - rewrite <- Hl. case_bool_decide as Hn; simpl.
    + rewrite bool_decide_eq_true_2 by done. simpl. by rewrite app_assoc.
    + by rewrite bool_decide_eq_true_2.
Qed.

Lemma cons_run_other (r r' : Run) (rs : list Run) (now : Z) :
  run_label r <> run_label r' ->
  blocks_of_runs (cons_run r (cons_run r' rs)) now =
  {| block_start := run_start r;
     block_duration := run_start r' - run_start r;
     block_title := run_label r;
     block_avg_apm := integer_mean (run_values r) |}
  :: blocks_of_runs (cons_run r' rs) now.
Proof.
  intros Hl. destruct (cons_run_head r' rs) as (x & more & -> & Hx & Hs).
  simpl. rewrite bool_decide_eq_false_2 by congruence.
  simpl. by rewrite Hs.
Qed.

Lemma avg_apm_mean (values : list Z) : avg_apm values = integer_mean values.
Proof. done. Qed.

(** The loop, started in the middle of a run, against the runs of the rows
    still to come. *)
Lemma compress_rows_runs (amap : gmap pystr pystr) (rest : list Row)
    (done_blocks : list Block) (label : pystr) (start : Z) (values : list Z)
    (now : Z) :
  close_block
    (foldl (compress_row amap)
       {| timeline := done_blocks; current_block := Some (label, start);
          current_block_apm_values := values |} rest) now
  = done_blocks ++
    blocks_of_runs
      (cons_run {| run_label := label; run_start := start;
                   run_values := values |} (runs amap rest)) now.
Proof.
  revert done_blocks label start values.
  induction rest as [|row rest IH]; intros done_blocks label start values.
  - done.
  - simpl foldl. unfold compress_row at 2. simpl current_block.
    simpl runs. case_bool_decide as Hsame.
    + assert (map_get amap (active_title row) = label) as Hlabel
        by (simpl in Hsame; congruence).
      rewrite cons_run_same by (simpl; congruence). simpl.
      destruct (apm row) as [a|]; simpl.
      * apply IH.
      * rewrite app_nil_r. apply IH.
    + assert (label <> map_get amap (active_title row)) as Hlabel
        by (simpl in Hsame; congruence).
      rewrite cons_run_other by (simpl; congruence).
      unfold close_block at 2. simpl.
      rewrite IH. rewrite <- app_assoc. simpl.
      unfold run_of_row. by destruct (apm row).
Qed.

Lemma build_timeline_runs (amap : gmap pystr pystr) (rows : list Row)
    (now : Z) :
  build_timeline amap rows now = blocks_of_runs (runs amap rows) now.
Proof.
  unfold build_timeline, compress_rows. destruct rows as [|row rest]; [done |].
  simpl foldl. unfold compress_row at 2. simpl.
  change (close_block compressor_init (timestamp row)) with (@nil Block).
  rewrite compress_rows_runs. unfold run_of_row.
  by destruct (apm row).
Qed.

Lemma runs_head (amap : gmap pystr pystr) (row : Row) (rest : list Row) :
  exists x more, runs amap (row :: rest) = x :: more
    /\ run_label x = map_get amap (active_title row)
    /\ run_start x = timestamp row.
Proof. apply (cons_run_head (run_of_row amap row)). Qed.

Lemma runs_length (amap : gmap pystr pystr) (row : Row) (rest : list Row) :
  length (runs amap (row :: rest)) =
  S (label_changes
       ((fun r => map_get amap (active_title r)) <$> (row :: rest))).
Proof.
  revert row. induction rest as [|row' rest IH]; intros row; [done |].
  specialize (IH row').
  destruct (runs_head amap row' rest) as (x & more & Hruns & Hlabel & _).
  change (runs amap (row :: row' :: rest))
    with (cons_run (run_of_row amap row) (runs amap (row' :: rest))).
  rewrite Hruns in *. rewrite fmap_cons.
  remember ((fun r => map_get amap (active_title r)) <$> (row' :: rest))
    as labels eqn:Hlabels.
  rewrite fmap_cons in Hlabels. subst labels.
  simpl label_changes. simpl cons_run. rewrite Hlabel.
  simpl in IH. case_bool_decide; simpl; lia.
Qed.

Lemma blocks_of_runs_lookup (rs : list Run) (now : Z) (i : nat) (b : Block) :
  blocks_of_runs rs now !! i = Some b ->
  exists run, rs !! i = Some run
    /\ block_start b = run_start run
    /\ block_title b = run_label run
    /\ block_avg_apm b = integer_mean (run_values run)
    /\ block_duration b =
         match rs !! S i with
         | Some next => run_start next
         | None => now
         end - run_start run.
Proof.
  revert i. induction rs as [|r rest IH]; intros i Hb; [done |].
  destruct i as [|i].
  - simpl in Hb. injection Hb as <-. exists r. simpl.
    by destruct rest.
  - apply IH in Hb. exact Hb.
Qed.

Lemma blocks_of_runs_length (rs : list Run) (now : Z) :
  length (blocks_of_runs rs now) = length rs.
Proof. induction rs as [|r rest IH]; simpl; [done | by rewrite IH]. Qed.

Lemma blocks_of_runs_sum (r : Run) (rest : list Run) (now : Z) :
  foldr Z.add 0 (block_duration <$> blocks_of_runs (r :: rest) now)
  = now - run_start r.
Proof.
  revert r. induction rest as [|r' rest IH]; intros r.
  - simpl. lia.
  - specialize (IH r').
    change (blocks_of_runs (r :: r' :: rest) now)
      with ({| block_start := run_start r;
               block_duration := run_start r' - run_start r;
               block_title := run_label r;
               block_avg_apm := integer_mean (run_values r) |}
            :: blocks_of_runs (r' :: rest) now).
    rewrite fmap_cons.
    change (foldr Z.add 0 (?a :: ?l)) with (a + foldr Z.add 0 l).
    rewrite IH. simpl. lia.
Qed.

(** C1. For a non-empty sequence of rows, [timeline] before the filter has
    one block more than there are adjacent rows with different labels; it is
    the list of the runs of equal labels, each block lasting from the first
    time stamp of its run to that of the next run, the last one to [now];
    the average of a block is the integer mean of the [apm] values of its
    run, 0 when there are none; and the durations add up to the time from
    the first row to [now]. *)
Theorem timeline_run_length (amap : gmap pystr pystr) (rows : list Row)
    (now : Z) :
  rows <> [] ->
  let labels := (fun r => map_get amap (active_title r)) <$> rows in
  let tl := build_timeline amap rows now in
  length tl = S (label_changes labels)
  /\ tl = blocks_of_runs (runs amap rows) now
  /\ (forall i b b', tl !! i = Some b -> tl !! S i = Some b' ->
        block_duration b = block_start b' - block_start b)
  /\ (forall b, last tl = Some b -> block_duration b = now - block_start b)
  /\ (forall i b, tl !! i = Some b ->
        exists run, runs amap rows !! i = Some run
          /\ block_title b = run_label run
          /\ block_avg_apm b = integer_mean (run_values run))
  /\ (forall first, head rows = Some first ->
        foldr Z.add 0 (block_duration <$> tl) = now - timestamp first).
Proof.
  intros Hrows. simpl. rewrite build_timeline_runs.
  destruct rows as [|row rest]; [done |].
  split; [| split; [done |]]; [| repeat split].
  - rewrite blocks_of_runs_length. apply runs_length.
  - intros i b b' Hb Hb'.
    apply blocks_of_runs_lookup in Hb as (run & Hrun & Hs & _ & _ & Hd).
    apply blocks_of_runs_lookup in Hb' as (run' & Hrun' & Hs' & _).
    rewrite Hrun' in Hd. lia.
  - intros b Hlast. rewrite last_lookup in Hlast.
    rewrite blocks_of_runs_length in Hlast.
    apply blocks_of_runs_lookup in Hlast as (run & Hrun & Hs & _ & _ & Hd).
    assert (runs amap (row :: rest) !! S (Nat.pred (length (runs amap (row :: rest)))) = None)
      as Hnone by (apply lookup_ge_None; lia).
    rewrite Hnone in Hd. lia.
  - intros i b Hb.
    apply blocks_of_runs_lookup in Hb as (run & Hrun & _ & Ht & Ha & _).
    eauto.
  - intros first [= <-].
    destruct (runs_head amap row rest) as (x & more & -> & _ & Hs).
    rewrite blocks_of_runs_sum. lia.
Qed.

(** ** The redaction set and the cache *)

Lemma to_redact_spec (title : pystr) :
  to_redact title = true <->
  title <> [] /\ ~ occurs_in (str "USER_AFK") title.
Proof.
  unfold to_redact. rewrite andb_true_iff, negb_true_iff.
  rewrite <- contains_spec. destruct title; simpl truthy.
  - split; [intros [? _]; discriminate | intros [? _]; done].
  - split; intros [_ H]; (split; [done |]).
    + by rewrite H.
    + by destruct (contains _ _).
Qed.

Lemma elem_of_unique_titles (rows : list Row) (title : pystr) :
  title ∈ unique_titles rows <->
  to_redact title = true /\ exists row, row ∈ rows /\ active_title row = title.
Proof.
  unfold unique_titles.
  rewrite elem_of_list_to_set, list_elem_of_filter, list_elem_of_fmap.
  rewrite Is_true_true. split.
  - intros [? (row & -> & ?)]. eauto.
  - intros [? (row & ? & <-)]. eauto.
Qed.

Lemma elem_of_titles_to_anonymize (cache : gmap pystr pystr)
    (titles : gset pystr) (title : pystr) :
  title ∈ titles_to_anonymize cache titles <->
  title ∈ titles /\ cache !! title = None.
Proof.
  unfold titles_to_anonymize.
  rewrite list_elem_of_filter, elem_of_elements. tauto.
Qed.

Lemma NoDup_titles_to_anonymize (cache : gmap pystr pystr)
    (titles : gset pystr) :
  NoDup (titles_to_anonymize cache titles).
Proof. apply NoDup_filter, NoDup_elements. Qed.

Lemma fill_cache_other (cfg : Config) (ollama : pystr -> CmdOutcome)
    (todo : list pystr) (cache : gmap pystr pystr) (title : pystr) :
  title ∉ todo -> fill_cache cfg ollama cache todo !! title = cache !! title.
Proof.
  unfold fill_cache. revert cache.
  induction todo as [|t todo IH]; intros cache Hnot; [done |].
  apply not_elem_of_cons in Hnot as [Hne Hnot]. simpl.
  rewrite IH by done.
  destruct (_anonymize_title _ _ _); by rewrite lookup_insert_ne.
Qed.

Lemma fill_cache_filled (cfg : Config) (ollama : pystr -> CmdOutcome)
    (todo : list pystr) (cache : gmap pystr pystr) (title : pystr) :
  title ∈ todo -> is_Some (fill_cache cfg ollama cache todo !! title).
Proof.
  unfold fill_cache. revert cache.
  induction todo as [|t todo IH]; intros cache Hin; [by inversion Hin |].
  simpl. destruct (decide (title ∈ todo)) as [Hlater | Hnot].
  - by apply IH.
  - apply elem_of_cons in Hin as [-> | ?]; [| done].
    pose proof (fill_cache_other cfg ollama todo) as Hother.
    unfold fill_cache in Hother. rewrite Hother by done.
    destruct (_anonymize_title _ _ _); rewrite lookup_insert_eq; eauto.
Qed.

Lemma anonymization_map_lookup (cache : gmap pystr pystr)
    (titles : gset pystr) (title : pystr) :
  anonymization_map cache titles !! title =
    if decide (title ∈ titles) then Some (default title (cache !! title))
    else None.
Proof.
  unfold anonymization_map.
  assert (Hinj : forall y y' : pystr, y ∈ titles -> y' ∈ titles ->
            (y, default y (cache !! y)).1 = (y', default y' (cache !! y')).1 ->
            y = y') by (intros y y' _ _ H; exact H).
  case_decide as Hin.
  - apply (lookup_set_to_map _ _ _ _ Hinj). by exists title.
  - apply eq_None_not_Some. intros [x Hx].
    apply (lookup_set_to_map _ _ _ _ Hinj) in Hx as (y & Hy & [= -> _]).
    done.
Qed.

Lemma map_get_anonymization_map (cache : gmap pystr pystr)
    (titles : gset pystr) (title : pystr) :
  map_get (anonymization_map cache titles) title =
    if decide (title ∈ titles) then default title (cache !! title) else title.
Proof.
  unfold map_get. rewrite anonymization_map_lookup. by case_decide.
Qed.

Lemma get_activity_log_submitted (cfg : Config) (ollama : pystr -> CmdOutcome)
    (cache : gmap pystr pystr) (fetch : option (list Row)) (now hours_ago : Z)
    (title : pystr) :
  title ∈ submitted (get_activity_log cfg ollama cache fetch now hours_ago) ->
  cache !! title = None
  /\ exists rows, fetch = Some rows /\ title ∈ unique_titles rows.
Proof.
  unfold get_activity_log. destruct fetch as [[|row rest]|]; simpl.
  - intros H; inversion H.
  - intros [? ?]%elem_of_titles_to_anonymize. eauto.
  - intros H; inversion H.
Qed.

Lemma get_activity_log_cache (cfg : Config) (ollama : pystr -> CmdOutcome)
    (cache : gmap pystr pystr) (fetch : option (list Row)) (now hours_ago : Z) :
  let r := get_activity_log cfg ollama cache fetch now hours_ago in
  anonymization_cache r = fill_cache cfg ollama cache (submitted r)
  /\ NoDup (submitted r)
  /\ forall rows, fetch = Some rows ->
       submitted r = titles_to_anonymize cache (unique_titles rows).
Proof.
  unfold get_activity_log. destruct fetch as [[|row rest]|]; simpl.
  - repeat split; [constructor |]. by intros rows [= <-].
  - repeat split; [apply NoDup_titles_to_anonymize |]. by intros rows [= <-].
  - repeat split; [constructor | done].
Qed.

(** C5. A title that has an entry in the cache when [get_activity_log]
    starts is not submitted to [_anonymize_title] by that call, keeps its
    entry, and is mapped to the cached value. No title is submitted twice
    by one call, every title of the redaction set has an entry afterwards,
    and so a later call that starts from the resulting cache submits none
    of them again. *)
Theorem cached_titles_not_resubmitted (cfg : Config)
    (ollama : pystr -> CmdOutcome) (cache : gmap pystr pystr)
    (rows : list Row) (now hours_ago : Z) :
  let r := get_activity_log cfg ollama cache (Some rows) now hours_ago in
  let titles := unique_titles rows in
  (forall title v, cache !! title = Some v ->
     (title ∉ submitted r)
     /\ anonymization_cache r !! title = Some v
     /\ (title ∈ titles ->
         map_get (anonymization_map (anonymization_cache r) titles) title = v))
  /\ NoDup (submitted r)
  /\ (forall title, title ∈ titles -> is_Some (anonymization_cache r !! title))
  /\ (forall ollama' fetch' now' hours_ago' title,
        title ∈ titles ->
        title ∉ submitted (get_activity_log cfg ollama' (anonymization_cache r)
                                            fetch' now' hours_ago')).
Proof.
  intros r titles.
  destruct (get_activity_log_cache cfg ollama cache (Some rows) now hours_ago)
    as (Hcache & Hnodup & Hsub).
  fold r in Hcache, Hnodup, Hsub. specialize (Hsub rows eq_refl).
  assert (Hkept : forall title v, cache !! title = Some v ->
            (title ∉ submitted r) /\ anonymization_cache r !! title = Some v).
  { intros title v Hv.
    assert (title ∉ submitted r) as Hnot.
    { intros [Hnone _]%get_activity_log_submitted. congruence. }
    split; [done |]. rewrite Hcache, fill_cache_other by done. done. }
  assert (Hfilled : forall title, title ∈ titles ->
            is_Some (anonymization_cache r !! title)).
  { intros title Hin. destruct (cache !! title) as [v|] eqn:Hv.
    - destruct (Hkept title v Hv) as [_ ->]. eauto.
    - rewrite Hcache. apply fill_cache_filled.
      rewrite Hsub. by apply elem_of_titles_to_anonymize. }
  split; [| split; [done | split; [done |]]].
  - intros title v Hv. destruct (Hkept title v Hv) as [Hnot Hentry].
    split; [done | split; [done |]].
    intros Hin. rewrite map_get_anonymization_map.
    rewrite decide_True by done. by rewrite Hentry.
  - intros ollama' fetch' now' hours_ago' title Hin.
    intros [Hnone _]%get_activity_log_submitted.
    destruct (Hfilled title Hin) as [v Hv]. congruence.
Qed.

(** ** Rendering *)

Lemma render_block_line (cfg : Config) (acc : pystr) (b : Block) :
  render_block cfg acc b =
    if decide (long_enough cfg b) then acc ++ block_line b else acc.
Proof.
  unfold render_block, long_enough, block_line.
  destruct (Z.ltb_spec (2 * block_duration b)
              (microseconds_of_seconds (LOG_INTERVAL_SECONDS cfg))).
  - rewrite decide_False by lia. done.
  - rewrite decide_True by lia.
    destruct (contains (block_title b) (str "USER_AFK")); simpl;
      by rewrite <- ?app_assoc.
Qed.

Lemma foldl_render_block (cfg : Config) (tl : list Block) (acc : pystr) :
  foldl (render_block cfg) acc tl =
    acc ++ concat (block_line <$> filter (long_enough cfg) tl).
Proof.
  revert acc. induction tl as [|b tl IH]; intros acc; simpl.
  - by rewrite app_nil_r.
  - rewrite IH, render_block_line. case_decide.
    + rewrite filter_cons_True by done. simpl. by rewrite <- app_assoc.
    + by rewrite filter_cons_False.
Qed.

Lemma format_duration_cases (duration : Z) :
  let seconds := Z.quot duration 1000000 in
  (seconds < 60 ->
     _format_duration_compact duration = str_of_Z seconds ++ str "s")
  /\ (60 <= seconds < 3600 ->
     _format_duration_compact duration = str_of_Z (seconds / 60) ++ str "m")
  /\ (3600 <= seconds -> (seconds / 60) mod 60 = 0 ->
     _format_duration_compact duration = str_of_Z (seconds / 3600) ++ str "h")
  /\ (3600 <= seconds -> (seconds / 60) mod 60 <> 0 ->
     _format_duration_compact duration =
       str_of_Z (seconds / 3600) ++ str "h"
         ++ str_of_Z ((seconds / 60) mod 60) ++ str "m").
Proof.
  intros seconds. unfold _format_duration_compact. fold seconds.
  assert (Hdiv : seconds / 60 / 60 = seconds / 3600)
    by (rewrite Z.div_div by lia; done).
  repeat split.
  - intros H. destruct (Z.ltb_spec seconds 60); [done | lia].
  - intros [H1 H2]. destruct (Z.ltb_spec seconds 60); [lia |].
    destruct (Z.ltb_spec (seconds / 60) 60) as [_ | H3]; [done |].
    assert (seconds / 60 < 60) by (apply Z.div_lt_upper_bound; lia). lia.
  - intros H1 H2. destruct (Z.ltb_spec seconds 60); [lia |].
    destruct (Z.ltb_spec (seconds / 60) 60) as [H3 | _].
    { assert (60 <= seconds / 60) by (apply Z.div_le_lower_bound; lia). lia. }
    rewrite H2, Hdiv. done.
  - intros H1 H2. destruct (Z.ltb_spec seconds 60); [lia |].
    destruct (Z.ltb_spec (seconds / 60) 60) as [H3 | _].
    { assert (60 <= seconds / 60) by (apply Z.div_le_lower_bound; lia). lia. }
    destruct (Z.eqb_spec ((seconds / 60) mod 60) 0); [done |].
    rewrite Hdiv. done.
Qed.

(** C7, as the code has it. The text is the header followed by one line
    for each block that lasts at least half of [LOG_INTERVAL_SECONDS], in
    order, every shorter block being left out, the whole stripped of
    surrounding white space. A line is [HH:MM (duration): label] followed
    by a line feed when [USER_AFK] occurs in the label and [HH:MM
    (duration): (Avg APM: n) label] otherwise, built from the block's own
    start, duration and average. The duration reads [Ns] below a minute,
    [Nm] below an hour, then [Nh] on the hour and [NhMm] otherwise. *)
Theorem render_lines (cfg : Config) (hours_ago : Z) (tl : list Block) :
  render cfg hours_ago tl =
    strip is_space
      (header hours_ago ++ concat (block_line <$> filter (long_enough cfg) tl))
  /\ (forall b,
        let start_f := strftime_HM (block_start b) in
        let duration_f := _format_duration_compact (block_duration b) in
        (occurs_in (str "USER_AFK") (block_title b) ->
           block_line b =
             start_f ++ str " (" ++ duration_f ++ str "): "
               ++ block_title b ++ newline)
        /\ (~ occurs_in (str "USER_AFK") (block_title b) ->
           block_line b =
             start_f ++ str " (" ++ duration_f ++ str "): (Avg APM: "
               ++ str_of_Z (block_avg_apm b) ++ str ") "
               ++ block_title b ++ newline))
  /\ (forall duration,
        let seconds := Z.quot duration 1000000 in
        (seconds < 60 ->
           _format_duration_compact duration = str_of_Z seconds ++ str "s")
        /\ (60 <= seconds < 3600 ->
           _format_duration_compact duration
             = str_of_Z (seconds / 60) ++ str "m")
        /\ (3600 <= seconds -> (seconds / 60) mod 60 = 0 ->
           _format_duration_compact duration
             = str_of_Z (seconds / 3600) ++ str "h")
        /\ (3600 <= seconds -> (seconds / 60) mod 60 <> 0 ->
           _format_duration_compact duration
             = str_of_Z (seconds / 3600) ++ str "h"
                 ++ str_of_Z ((seconds / 60) mod 60) ++ str "m")).
Proof.
  split; [| split].
  - unfold render. by rewrite foldl_render_block.
  - intros b start_f duration_f. unfold block_line.
    fold start_f duration_f. split.
    + intros Hafk%contains_spec. by rewrite Hafk.
    + intros Hnot.
      destruct (contains (block_title b) (str "USER_AFK")) eqn:E.
      * by apply contains_spec in E.
      * by rewrite <- !app_assoc.
  - apply format_duration_cases.
Qed.

(** *** The characters of the numbers, times and durations of a line *)

Ltac concrete_chars :=
  match goal with |- ?P => apply (@bool_decide_unpack P _) end;
  vm_compute; exact I.

Ltac chars_of lemma :=
  etrans; [apply lemma | concrete_chars].

Lemma string_of_uint_chars (d : Decimal.uint) :
  str (NilEmpty.string_of_uint d) ⊆ str "0123456789".
Proof.
  induction d; simpl;
    [apply list_subseteq_nil
    | apply list_subseteq_cons_iff; split; [concrete_chars | exact IHd] ..].
Qed.

Lemma str_of_Z_chars (n : Z) : str_of_Z n ⊆ str "-0123456789".
Proof.
  unfold str_of_Z, NilZero.string_of_int, NilZero.string_of_uint.
  destruct (Z.to_int n) as [d | d]; destruct d;
    try concrete_chars; simpl;
    repeat (apply list_subseteq_cons_iff; split; [concrete_chars |]);
    chars_of string_of_uint_chars.
Qed.

Lemma two_digits_chars (n : Z) : two_digits n ⊆ str "-0123456789".
Proof.
  unfold two_digits. destruct (n <? 10); [| apply str_of_Z_chars].
  apply list_subseteq_app_iff_l. split; [concrete_chars | apply str_of_Z_chars].
Qed.

Lemma strftime_HM_chars (t : Z) : strftime_HM t ⊆ str "-0123456789:".
Proof.
  unfold strftime_HM.
  repeat (apply list_subseteq_app_iff_l; split);
    first [chars_of two_digits_chars | concrete_chars].
Qed.

Lemma format_duration_chars (duration : Z) :
  _format_duration_compact duration ⊆ str "-0123456789smh".
Proof.
  unfold _format_duration_compact.
  repeat match goal with |- context [if ?b then _ else _] => destruct b end;
    repeat (apply list_subseteq_app_iff_l; split);
    first [chars_of str_of_Z_chars | concrete_chars].
Qed.

Lemma occurs_in_chars (p s : pystr) : occurs_in p s -> p ⊆ s.
Proof.
  intros (a & b & ->) c Hc. apply elem_of_app. right.
  apply elem_of_app. by left.
Qed.

(** C7 fails as stated: the lines of the returned text carry a colon after
    the parenthesised duration, which the format of the specification does
    not have. Both blocks of [example_timeline] are long enough to be
    kept, and neither line in the specification's format occurs in the
    text. *)
Lemma render_not_in_spec_format :
  render example_config 1 example_timeline =
    str "Timeline of focused windows & AFK status (last 1h):" ++ newline
      ++ str "10:00 (2m): (Avg APM: 6) A" ++ newline
      ++ str "10:02 (3m): USER_AFK_LOCKED"
  /\ filter (long_enough example_config) example_timeline = example_timeline
  /\ spec_line <$> example_timeline =
       [str "10:00 (2m) (Avg APM: 6) A"; str "10:02 (3m) USER_AFK_LOCKED"]
  /\ (fun b => contains (render example_config 1 example_timeline)
                        (spec_line b)) <$> example_timeline
     = [false; false].
Proof. repeat split; vm_compute; reflexivity. Qed.

(** ** The AFK sentinel *)

Lemma last_compress_row (amap : gmap pystr pystr) (st : Compressor)
    (row : Row) (a : Z) :
  apm row = Some a ->
  last (current_block_apm_values (compress_row amap st row)) = Some a.
Proof.
  intros Ha. unfold compress_row. rewrite Ha.
  case_bool_decide; simpl; [apply last_snoc | done].
Qed.

Lemma sentinel_not_redacted (rows : list Row) (title : pystr) :
  occurs_in (str "USER_AFK") title -> title ∉ unique_titles rows.
Proof.
  intros Hafk [Hredact _]%elem_of_unique_titles.
  apply to_redact_spec in Hredact as [_ Hnot]. done.
Qed.

Lemma sentinel_has_user_afk :
  occurs_in (str "USER_AFK") (str "USER_AFK_LOCKED").
Proof. by apply contains_spec. Qed.

Lemma afk_line (b : Block) :
  occurs_in (str "USER_AFK") (block_title b) ->
  block_line b =
    strftime_HM (block_start b) ++ str " ("
      ++ _format_duration_compact (block_duration b) ++ str "): "
      ++ block_title b ++ newline.
Proof.
  intros Hafk%contains_spec. unfold block_line. by rewrite Hafk.
Qed.

Lemma get_activity_log_output (cfg : Config) (ollama : pystr -> CmdOutcome)
    (cache : gmap pystr pystr) (rows : list Row) (now hours_ago : Z) :
  rows <> [] ->
  let r := get_activity_log cfg ollama cache (Some rows) now hours_ago in
  let amap := anonymization_map (anonymization_cache r) (unique_titles rows) in
  output r =
    strip is_space
      (header (Z.max 1 (Z.min hours_ago (LOG_RETENTION_HOURS cfg)))
         ++ concat (block_line
                      <$> filter (long_enough cfg)
                                 (build_timeline amap rows now))).
Proof.
  intros Hrows r amap. rewrite <- foldl_render_block.
  destruct rows as [|row rest]; [done | reflexivity].
Qed.

Lemma render_block_afk (cfg : Config) (acc : pystr) (b : Block) :
  occurs_in (str "USER_AFK") (block_title b) ->
  render_block cfg acc b =
    if decide (long_enough cfg b)
    then acc ++ strftime_HM (block_start b) ++ str " ("
           ++ _format_duration_compact (block_duration b) ++ str "): "
           ++ block_title b ++ newline
    else acc.
Proof.
  intros Hafk. rewrite render_block_line. case_decide; [| done].
  by rewrite afk_line.
Qed.

(** C4, as the code has it. The sentinel ["USER_AFK_LOCKED"] is never in
    the set of titles to redact, is never submitted to [_anonymize_title]
    and labels its own rows. The [apm] value of a sentinel row is the last
    of the accumulated values after the row, as for any other row. The
    body of the rendering loop appends, for a block labelled with the
    sentinel that is long enough, the line [HH:MM (duration):
    USER_AFK_LOCKED] and nothing for a shorter one; the text returned for
    rows is the header followed by the lines of the blocks that are long
    enough, stripped; and in the line of a block labelled with the
    sentinel [Avg APM] does not occur. *)
Theorem afk_rows_redaction_and_display (cfg : Config)
    (ollama : pystr -> CmdOutcome) (cache : gmap pystr pystr)
    (rows : list Row) (now hours_ago : Z) :
  let sentinel := str "USER_AFK_LOCKED" in
  let r := get_activity_log cfg ollama cache (Some rows) now hours_ago in
  let amap := anonymization_map (anonymization_cache r) (unique_titles rows) in
  (sentinel ∉ unique_titles rows)
  /\ (sentinel ∉ submitted r)
  /\ map_get amap sentinel = sentinel
  /\ (forall st row a,
        active_title row = sentinel -> apm row = Some a ->
        last (current_block_apm_values (compress_row amap st row)) = Some a)
  /\ (forall timeline_str b,
        block_title b = sentinel ->
        render_block cfg timeline_str b =
          if decide (long_enough cfg b)
          then timeline_str ++ strftime_HM (block_start b) ++ str " ("
                 ++ _format_duration_compact (block_duration b)
                 ++ str "): USER_AFK_LOCKED" ++ newline
          else timeline_str)
  /\ (rows <> [] ->
        output r =
          strip is_space
            (header (Z.max 1 (Z.min hours_ago (LOG_RETENTION_HOURS cfg)))
               ++ concat (block_line
                            <$> filter (long_enough cfg)
                                       (build_timeline amap rows now))))
  /\ (forall b,
        block_title b = sentinel ->
        block_line b =
          strftime_HM (block_start b) ++ str " ("
            ++ _format_duration_compact (block_duration b)
            ++ str "): USER_AFK_LOCKED" ++ newline
        /\ ~ occurs_in (str "Avg APM") (block_line b)).
Proof.
  intros sentinel r amap.
  pose proof (sentinel_not_redacted rows sentinel sentinel_has_user_afk)
    as Hnot.
  split; [done |]. split; [| split; [| split; [| split; [| split]]]].
  - intros [_ (rows' & [= <-] & Hin)]%get_activity_log_submitted. done.
  - unfold amap. rewrite map_get_anonymization_map.
    by rewrite decide_False.
  - intros st row a _ Ha. by apply last_compress_row.
  - intros timeline_str b Hb.
    rewrite render_block_afk by (rewrite Hb; apply sentinel_has_user_afk).
    by rewrite Hb.
  - intros Hrows. by apply get_activity_log_output.
  - intros b Hb.
    assert (Hline : block_line b =
      strftime_HM (block_start b) ++ str " ("
        ++ _format_duration_compact (block_duration b)
        ++ str "): USER_AFK_LOCKED" ++ newline).
    { rewrite afk_line by (rewrite Hb; apply sentinel_has_user_afk).
      rewrite Hb. reflexivity. }
    split; [done |].
    intros Hocc%occurs_in_chars. rewrite Hline in Hocc.
    assert (Hchars :
      strftime_HM (block_start b) ++ str " ("
        ++ _format_duration_compact (block_duration b)
        ++ str "): USER_AFK_LOCKED" ++ newline
      ⊆ str "-0123456789:smh () USER_AFK_LOCKED" ++ newline).
    { apply list_subseteq_app_iff_l; split; [chars_of strftime_HM_chars |].
      apply list_subseteq_app_iff_l; split; [concrete_chars |].
      apply list_subseteq_app_iff_l; split;
        [chars_of format_duration_chars | concrete_chars]. }
    assert (Hv : "v"%char ∈ str "Avg APM") by concrete_chars.
    apply Hocc, Hchars in Hv. revert Hv. concrete_chars.
Qed.

(** C4 fails as stated: rows of the sentinel do contribute to the
    accumulated values. A locked cycle of the recorder stores the sentinel
    with [apm] 0, and after three such rows the accumulated values of the
    open block are three zeros. *)
Lemma afk_rows_accumulate_apm :
  map_to_list (activity (log_activity_cycle example_config locked_env
                                            empty_world).1)
    = [(at_time 10 0 0, (str "USER_AFK_LOCKED", 0))]
  /\ (fun row => (active_title row, apm row)) <$> afk_rows
     = [(str "USER_AFK_LOCKED", Some 0); (str "USER_AFK_LOCKED", Some 0);
        (str "USER_AFK_LOCKED", Some 0)]
  /\ current_block_apm_values
       (compress_rows (anonymization_map ∅ (unique_titles afk_rows)) afk_rows)
     = [0; 0; 0].
Proof. repeat split; vm_compute; reflexivity. Qed.

Lemma cons_run_labels (r : Run) (rs : list Run) (x : Run) :
  x ∈ rs -> exists y, y ∈ cons_run r rs /\ run_label y = run_label x.
Proof.
  intros Hx. destruct rs as [|next more]; [by inversion Hx |]. simpl.
  case_bool_decide as Hsame.
  - apply elem_of_cons in Hx as [-> | Hx].
    + eexists. split; [by left | done].
    + exists x. split; [by right | done].
  - exists x. split; [by right | done].
Qed.

Lemma runs_labels (amap : gmap pystr pystr) (rows : list Row) (row : Row) :
  row ∈ rows ->
  exists run, run ∈ runs amap rows
    /\ run_label run = map_get amap (active_title row).
Proof.
  induction rows as [|row' rest IH]; intros Hin; [by inversion Hin |].
  apply elem_of_cons in Hin as [-> | Hin].
  - destruct (runs_head amap row' rest) as (x & more & -> & Hl & _).
    exists x. split; [by left | done].
  - destruct (IH Hin) as (run & Hrun & Hl).
    destruct (cons_run_labels (run_of_row amap row') _ _ Hrun) as (y & Hy & Hly).
    exists y. split; [done | congruence].
Qed.

Lemma blocks_of_runs_titles (rs : list Run) (now : Z) (run : Run) :
  run ∈ rs ->
  exists b, b ∈ blocks_of_runs rs now /\ block_title b = run_label run.
Proof.
  induction rs as [|r rest IH]; intros Hin; [by inversion Hin |].
  apply elem_of_cons in Hin as [-> | Hin].
  - eexists. split; [by left | done].
  - destruct (IH Hin) as (b & Hb & Ht). exists b. split; [by right | done].
Qed.

(** C10. A title of the queried rows is left out of the set of titles to
    redact exactly when it is empty or [USER_AFK] occurs in it. A title in
    which [USER_AFK] occurs, sentinel or not, is therefore not submitted to
    [_anonymize_title], labels its own rows and is the title of a block of
    the timeline. For a block with that title the body of the rendering
    loop appends the line [HH:MM (duration): title], without the
    [(Avg APM: n)] part, when the block is long enough, and nothing
    otherwise; and the text returned is the header followed by the lines of
    the blocks that are long enough, stripped. *)
Theorem user_afk_substring_exempt (cfg : Config)
    (ollama : pystr -> CmdOutcome) (cache : gmap pystr pystr)
    (rows : list Row) (now hours_ago : Z) :
  let r := get_activity_log cfg ollama cache (Some rows) now hours_ago in
  let amap := anonymization_map (anonymization_cache r) (unique_titles rows) in
  (forall row, row ∈ rows ->
     active_title row ∉ unique_titles rows <->
     active_title row = [] \/ occurs_in (str "USER_AFK") (active_title row))
  /\ (forall row, row ∈ rows ->
        occurs_in (str "USER_AFK") (active_title row) ->
        (active_title row ∉ submitted r)
        /\ map_get amap (active_title row) = active_title row
        /\ (exists b, b ∈ build_timeline amap rows now
                      /\ block_title b = active_title row)
        /\ (forall b, block_title b = active_title row ->
              block_line b =
                strftime_HM (block_start b) ++ str " ("
                  ++ _format_duration_compact (block_duration b) ++ str "): "
                  ++ active_title row ++ newline)
        /\ (forall timeline_str b, block_title b = active_title row ->
              render_block cfg timeline_str b =
                if decide (long_enough cfg b)
                then timeline_str ++ strftime_HM (block_start b) ++ str " ("
                       ++ _format_duration_compact (block_duration b)
                       ++ str "): " ++ active_title row ++ newline
                else timeline_str)
        /\ output r =
             strip is_space
               (header (Z.max 1 (Z.min hours_ago (LOG_RETENTION_HOURS cfg)))
                  ++ concat (block_line
                               <$> filter (long_enough cfg)
                                          (build_timeline amap rows now)))).
Proof.
  intros r amap. split.
  - intros row Hrow. rewrite elem_of_unique_titles. split.
    + intros Hnot.
      destruct (to_redact (active_title row)) eqn:Hredact.
      { exfalso. apply Hnot. eauto. }
      unfold to_redact in Hredact.
      apply andb_false_iff in Hredact as [Hempty | Hafk].
      * left. by destruct (active_title row).
      * right. apply contains_spec. by apply negb_false_iff.
    + intros Hcase [Hredact _].
      apply to_redact_spec in Hredact as [Hne Hnot]. by destruct Hcase.
  - intros row Hrow Hafk.
    pose proof (sentinel_not_redacted rows _ Hafk) as Hnot.
    assert (Hlabel : map_get amap (active_title row) = active_title row).
    { unfold amap. rewrite map_get_anonymization_map. by rewrite decide_False. }
    split; [| split; [done | split; [| split; [| split]]]].
    + intros [_ (rows' & [= <-] & Hin)]%get_activity_log_submitted. done.
    + rewrite build_timeline_runs.
      destruct (runs_labels amap rows row Hrow) as (run & Hrun & Hl).
      destruct (blocks_of_runs_titles _ now _ Hrun) as (b & Hb & Ht).
      exists b. split; [done | congruence].
    + intros b Hb. rewrite afk_line by (by rewrite Hb). by rewrite Hb.
    + intros timeline_str b Hb.
      rewrite render_block_afk by (by rewrite Hb). by rewrite Hb.
    + apply get_activity_log_output. intros ->. inversion Hrow.
Qed.

(** ** The statements with a hypothesis, at concrete inputs *)

Lemma sanitize_window_title_cases_witness :
  ((exists b, b ∈ KNOWN_BROWSERS example_config
              /\ ends_with (str "cats - YouTube - Mozilla Firefox") b) ->
   (exists r, r ∈ TITLE_CLEANUP_RULES example_config
              /\ occurs_in r.1 (str "cats - YouTube - Mozilla Firefox")) ->
   exists browser rule,
     first_with (ends_with (str "cats - YouTube - Mozilla Firefox"))
                (KNOWN_BROWSERS example_config) browser
     /\ first_with
          (fun r => occurs_in r.1 (str "cats - YouTube - Mozilla Firefox"))
          (TITLE_CLEANUP_RULES example_config) rule
     /\ _sanitize_window_title example_config
           (str "cats - YouTube - Mozilla Firefox")
         = rule.2 ++ str " - " ++ browser)
  /\ ((forall b, b ∈ KNOWN_BROWSERS example_config ->
         ~ ends_with (str "cats - YouTube - Mozilla Firefox") b)
      \/ (forall r, r ∈ TITLE_CLEANUP_RULES example_config ->
         ~ occurs_in r.1 (str "cats - YouTube - Mozilla Firefox")) ->
      (MAX_TITLE_LENGTH example_config
         < Z.of_nat (length (str "cats - YouTube - Mozilla Firefox")) ->
       _sanitize_window_title example_config
           (str "cats - YouTube - Mozilla Firefox")
         = str "..." ++ last_chars
                          (Z.to_nat (MAX_TITLE_LENGTH example_config - 3))
                          (str "cats - YouTube - Mozilla Firefox"))
      /\ (Z.of_nat (length (str "cats - YouTube - Mozilla Firefox"))
            <= MAX_TITLE_LENGTH example_config ->
          _sanitize_window_title example_config
              (str "cats - YouTube - Mozilla Firefox")
            = str "cats - YouTube - Mozilla Firefox")).
Proof.
  apply (sanitize_window_title_cases example_config
           (str "cats - YouTube - Mozilla Firefox")).
  - reflexivity.
  - reflexivity.
Defined.

Lemma evict_and_count_sorted_witness :
  let ticks := [at_time 9 58 59; at_time 9 59 0; at_time 9 59 30] in
  let one_minute_ago :=
    at_time 10 0 0
      - microseconds_of_seconds (APM_WINDOW_SECONDS example_config) in
  let kept := filter (fun t => one_minute_ago <= t) ticks in
  let removed := filter (fun t => t < one_minute_ago) ticks in
  (evict_and_count example_config (at_time 10 0 0) ticks).1 = kept
  /\ ticks = removed
             ++ (evict_and_count example_config (at_time 10 0 0) ticks).1
  /\ (evict_and_count example_config (at_time 10 0 0) ticks).2
     = Z.of_nat (length kept).
Proof.
  apply (evict_and_count_sorted example_config (at_time 10 0 0)
           [at_time 9 58 59; at_time 9 59 0; at_time 9 59 30]).
  repeat constructor; vm_compute; discriminate.
Defined.

Lemma locked_cycle_witness :
  let w' := (log_activity_cycle example_config locked_env empty_world).1 in
  let calls := (log_activity_cycle example_config locked_env empty_world).2 in
  let horizon :=
    now_cutoff locked_env
      - microseconds_of_hours (LOG_RETENTION_HOURS example_config) in
  activity_ticks w' = activity_ticks empty_world
  /\ calls = [IsScreenLocked]
  /\ (storage_ok locked_env = true ->
      activity w' =
        delete_before horizon
          (insert_or_ignore (now_insert locked_env) (str "USER_AFK_LOCKED") 0
                            (activity empty_world))
      /\ (activity empty_world !! now_insert locked_env = None ->
          horizon <= now_insert locked_env ->
          activity w' !! now_insert locked_env
            = Some (str "USER_AFK_LOCKED", 0))).
Proof.
  apply (locked_cycle example_config locked_env empty_world).
  reflexivity.
Defined.

Lemma timeline_run_length_witness :
  let amap := (∅ : gmap pystr pystr) in
  let rows :=
    [ {| timestamp := at_time 10 0 0; active_title := str "A"; apm := Some 5 |};
      {| timestamp := at_time 10 1 0; active_title := str "A"; apm := Some 7 |};
      {| timestamp := at_time 10 2 0; active_title := str "B"; apm := Some 0 |} ] in
  let now := at_time 10 5 0 in
  let labels := (fun r => map_get amap (active_title r)) <$> rows in
  let tl := build_timeline amap rows now in
  length tl = S (label_changes labels)
  /\ tl = blocks_of_runs (runs amap rows) now
  /\ (forall i b b', tl !! i = Some b -> tl !! S i = Some b' ->
        block_duration b = block_start b' - block_start b)
  /\ (forall b, last tl = Some b -> block_duration b = now - block_start b)
  /\ (forall i b, tl !! i = Some b ->
        exists run, runs amap rows !! i = Some run
          /\ block_title b = run_label run
          /\ block_avg_apm b = integer_mean (run_values run))
  /\ (forall first, head rows = Some first ->
        foldr Z.add 0 (block_duration <$> tl) = now - timestamp first).
Proof.
  apply (timeline_run_length ∅
    [ {| timestamp := at_time 10 0 0; active_title := str "A"; apm := Some 5 |};
      {| timestamp := at_time 10 1 0; active_title := str "A"; apm := Some 7 |};
      {| timestamp := at_time 10 2 0; active_title := str "B"; apm := Some 0 |} ]
    (at_time 10 5 0)).
  discriminate.
Defined.

(** ** Stage 1 of the redactor *)

(** *** Character classes *)

Lemma is_word_lower (c : ascii) : is_word (lower c) = is_word c.
Proof. destruct c as [[] [] [] [] [] [] [] []]; reflexivity. Qed.

Lemma is_space_not_word (c : ascii) : is_space c = true -> is_word c = false.
Proof. destruct c as [[] [] [] [] [] [] [] []]; vm_compute; congruence. Qed.

Lemma is_dash_not_word (c : ascii) : is_dash c = true -> is_word c = false.
Proof. unfold is_dash. intros ->%Ascii.eqb_eq. reflexivity. Qed.

Lemma is_space_or_dash_not_word (c : ascii) :
  is_space_or_dash c = true -> is_word c = false.
Proof.
  unfold is_space_or_dash. intros [->%Ascii.eqb_eq | H]%orb_true_iff.
  - reflexivity.
  - by apply is_dash_not_word.
Qed.

Lemma ci_eq_same_letter (k c : ascii) : ci_eq k c = true <-> same_letter k c.
Proof. unfold ci_eq, same_letter. apply Ascii.eqb_eq. Qed.

Lemma ci_eq_is_word (k c : ascii) : ci_eq k c = true -> is_word k = is_word c.
Proof.
  intros H%ci_eq_same_letter. unfold same_letter in H.
  rewrite <- (is_word_lower k), <- (is_word_lower c). by rewrite H.
Qed.

(** *** The matcher *)

Lemma word_after_cons (thatp : bool) (c : ascii) (l : pystr) :
  word_after thatp (c :: l) = word_after (is_word c) l.
Proof.
  unfold word_after. destruct l as [|a l]; [done |].
  rewrite last_cons_cons.
  destruct (last (a :: l)) eqn:E; [done | by apply last_None in E].
Qed.

Lemma word_after_app (thatp : bool) (a b : pystr) :
  word_after thatp (a ++ b) = word_after (word_after thatp a) b.
Proof.
  revert thatp. induction a as [|c a IH]; intros thatp; [done |].
  simpl. by rewrite !word_after_cons, IH.
Qed.

Lemma last_is_word_app (a m : pystr) :
  last_is_word (a ++ m) = word_after (last_is_word a) m.
Proof. apply (word_after_app false). Qed.

Lemma match_tail_split (thatp : bool) (s kw : pystr) :
  match_tail thatp s kw = true <->
  exists m rest, s = m ++ rest /\ Forall2 same_letter kw m
    /\ at_boundary (word_after thatp m) rest = true.
Proof.
  revert thatp s. induction kw as [|k kw IH]; intros thatp s; simpl.
  - split.
    + intros H. exists [], s. repeat split; [constructor | done].
    + intros (m & rest & -> & Hm & Hb). inversion Hm; subst. done.
  - destruct s as [|c s].
    + split; [discriminate |].
      intros (m & rest & Hs & Hm & _). inversion Hm; subst. discriminate.
    + rewrite andb_true_iff, IH, ci_eq_same_letter. split.
      * intros [Hk (m & rest & -> & Hm & Hb)].
        exists (c :: m), rest. rewrite word_after_cons.
        repeat split; [by constructor | done].
      * intros (m & rest & Hs & Hm & Hb). inversion Hm as [|? c' ? m' Hk Hm']; subst.
        injection Hs as -> ->. rewrite word_after_cons in Hb.
        split; [done |]. eauto.
Qed.

Lemma Forall2_same_letter_word_after (thatp thatp' : bool) (kw m : pystr) :
  Forall2 same_letter kw m -> kw <> [] ->
  word_after thatp m = word_after thatp' kw.
Proof.
  intros H. revert thatp thatp'.
  induction H as [|k c kw m Hk H IH]; intros thatp thatp' Hne; [done |].
  rewrite !word_after_cons.
  apply ci_eq_same_letter, ci_eq_is_word in Hk. rewrite Hk.
  destruct H as [|k' c' kw m Hk' H]; [done |].
  by apply IH.
Qed.

(** A whole-word occurrence is a split of the string at which the matcher
    succeeds. *)
Lemma whole_word_occurrence_match (kw s : pystr) :
  whole_word_occurrence kw s <->
  kw <> [] /\ exists a b, s = a ++ b
    /\ keyword_matches (last_is_word a) b kw = true.
Proof.
  unfold whole_word_occurrence, keyword_matches. split.
  - intros (a & m & b & -> & Hne & Hm & Hl & Hr). split; [done |].
    exists a, (m ++ b). split; [done |].
    apply andb_true_iff. split.
    + unfold at_boundary. by destruct (last_is_word a), (head_is_word (m ++ b)).
    + apply match_tail_split. exists m, b. repeat split; [done |].
      rewrite <- last_is_word_app.
      unfold at_boundary.
      by destruct (last_is_word (a ++ m)), (head_is_word b).
  - intros (Hne & a & b & -> & [Hl Hr]%andb_true_iff).
    apply match_tail_split in Hr as (m & rest & -> & Hm & Hb).
    exists a, m, rest. repeat split; [done | done | |].
    + unfold at_boundary in Hl.
      by destruct (last_is_word a), (head_is_word (m ++ rest)).
    + rewrite <- last_is_word_app in Hb. unfold at_boundary in Hb.
      by destruct (last_is_word (a ++ m)), (head_is_word rest).
Qed.

Lemma spaced_word_after (thatp : bool) (kw : pystr) :
  spaced thatp kw = true -> word_after thatp kw = true.
Proof.
  revert thatp. induction kw as [|k kw IH]; intros thatp; simpl; [done |].
  intros [_ H]%andb_true_iff. rewrite word_after_cons. by apply IH.
Qed.

Lemma plain_keyword_cons (kw : pystr) :
  plain_keyword kw = true ->
  exists k ks, kw = k :: ks /\ is_word k = true /\ spaced true ks = true.
Proof.
  unfold plain_keyword. destruct kw as [|k ks]; simpl; [discriminate |].
  intros [Hk Hks]%andb_true_iff. rewrite Hk in Hks. eauto.
Qed.

(** What a match of a plain keyword says about the string around it. *)
Lemma keyword_matches_plain (thatp : bool) (s kw : pystr) :
  plain_keyword kw = true ->
  keyword_matches thatp s kw = true ->
  thatp = false /\ head_is_word s = true
  /\ exists m rest, s = m ++ rest /\ length m = length kw /\ m <> []
       /\ word_after thatp m = true /\ head_is_word rest = false.
Proof.
  intros Hplain [Hl Hr]%andb_true_iff.
  apply match_tail_split in Hr as (m & rest & -> & Hm & Hb).
  pose proof (plain_keyword_cons kw Hplain) as (k & ks & -> & Hk & Hks).
  inversion Hm as [|? c ? m' Hkc Hm']; subst.
  assert (is_word c = true) as Hc.
  { apply ci_eq_same_letter, ci_eq_is_word in Hkc. congruence. }
  assert (word_after thatp (c :: m') = true) as Hlast.
  { rewrite (Forall2_same_letter_word_after thatp false (k :: ks)) by done.
    by apply spaced_word_after. }
  unfold at_boundary in Hl, Hb. simpl in Hl. rewrite Hc in Hl.
  rewrite Hlast in Hb.
  split; [by destruct thatp |]. split; [done |].
  exists (c :: m'), rest. repeat split; [| done | done |].
  - symmetry. by eapply Forall2_length.
  - by destruct (head_is_word rest).
Qed.

Section SubForbidden.
Variable kws : list pystr.
Hypothesis kws_plain : forallb plain_keyword kws = true.

Lemma kws_plain_elem (kw : pystr) : kw ∈ kws -> plain_keyword kw = true.
Proof.
  intros Hin. rewrite forallb_forall in kws_plain.
  apply kws_plain. by apply list_elem_of_In.
Qed.

Lemma forbidden_match_None (thatp : bool) (s : pystr) :
  forbidden_match kws thatp s = None ->
  forall kw, kw ∈ kws -> keyword_matches thatp s kw = false.
Proof.
  unfold forbidden_match. intros Hnone kw Hin.
  destruct (find _ kws) eqn:Hfind; [discriminate |].
  apply (proj1 (find_none_iff _ _)) with (y := kw) in Hfind; [| done].
  apply kws_plain_elem, plain_keyword_cons in Hin as (k & ks & -> & _).
  exact Hfind.
Qed.

Lemma forbidden_match_Some (thatp : bool) (s : pystr) (n : nat) :
  forbidden_match kws thatp s = Some n ->
  exists kw, kw ∈ kws /\ length kw = n /\ keyword_matches thatp s kw = true.
Proof.
  unfold forbidden_match. destruct (find _ kws) as [kw|] eqn:Hfind;
    [| discriminate].
  intros [= <-]. apply find_some in Hfind as [Hin [_ H]%andb_true_iff].
  exists kw. split; [by apply list_elem_of_In | done].
Qed.

Lemma sub_forbidden_go_skip (thatp : bool) (k : nat) (s : pystr) :
  sub_forbidden_go kws thatp k s =
  sub_forbidden_go kws (word_after thatp (take k s)) 0 (drop k s).
Proof.
  revert thatp s. induction k as [|k IH]; intros thatp s.
  - by rewrite take_0, drop_0.
  - destruct s as [|c s]; [done |].
    simpl take. simpl drop. rewrite word_after_cons. simpl. apply IH.
Qed.

Lemma sub_forbidden_no_match (thatp : bool) (c : ascii) (s : pystr) :
  forbidden_match kws thatp (c :: s) = None ->
  sub_forbidden_go kws thatp 0 (c :: s) =
  c :: sub_forbidden_go kws (is_word c) 0 s.
Proof. intros H. simpl. by rewrite H. Qed.

(** A match is passed over, and the scan goes on behind it, after a word
    character and in front of a non-word character or the end. *)
Lemma sub_forbidden_match (thatp : bool) (s : pystr) (n : nat) :
  forbidden_match kws thatp s = Some n ->
  thatp = false /\ head_is_word s = true
  /\ exists m rest, s = m ++ rest /\ m <> [] /\ head_is_word rest = false
       /\ sub_forbidden_go kws thatp 0 s = sub_forbidden_go kws true 0 rest.
Proof.
  intros Hmatch.
  pose proof (forbidden_match_Some _ _ _ Hmatch) as (kw & Hin & Hlen & Hkw).
  apply keyword_matches_plain in Hkw
    as (Hthatp & Hhead & m & rest & -> & Hm & Hne & Hlast & Hrest);
    [| by apply kws_plain_elem].
  split; [done |]. split; [done |].
  exists m, rest. repeat split; [done | done |].
  destruct m as [|c m]; [done |].
  change ((c :: m) ++ rest) with (c :: (m ++ rest)) in *.
  simpl sub_forbidden_go. rewrite Hmatch.
  rewrite sub_forbidden_go_skip.
  assert (Nat.pred n = length m) as -> by (simpl in Hm; lia).
  rewrite take_app_length, drop_app_length.
  by rewrite <- (word_after_cons thatp), Hlast.
Qed.

Lemma sub_forbidden_nonword (thatp : bool) (c : ascii) (s : pystr) :
  is_word c = false ->
  sub_forbidden_go kws thatp 0 (c :: s) = c :: sub_forbidden_go kws false 0 s.
Proof.
  intros Hc. destruct (forbidden_match kws thatp (c :: s)) as [n|] eqn:Hm.
  - apply sub_forbidden_match in Hm as (_ & Hhead & _).
    simpl in Hhead. congruence.
  - rewrite sub_forbidden_no_match by done. by rewrite Hc.
Qed.

(** A keyword that matches in the output of the substitution, from a
    position the scan has copied up to, matches in the input. *)
Lemma match_tail_sub_forbidden (ks s : pystr) (thatp : bool) :
  spaced thatp ks = true ->
  match_tail thatp (sub_forbidden_go kws thatp 0 s) ks = true ->
  match_tail thatp s ks = true.
Proof.
  revert s thatp. induction ks as [|k ks IH]; intros s thatp Hspaced.
  - simpl in Hspaced. subst thatp. simpl. unfold at_boundary.
    destruct s as [|c s]; [done |].
    destruct (is_word c) eqn:Hc.
    + destruct (forbidden_match kws true (c :: s)) as [n|] eqn:Hm.
      * by apply sub_forbidden_match in Hm as (? & _).
      * rewrite sub_forbidden_no_match by done. simpl. by rewrite Hc.
    + simpl. by rewrite Hc.
  - simpl in Hspaced. apply andb_true_iff in Hspaced as [Hk Hspaced].
    destruct s as [|c s]; [done |].
    destruct (forbidden_match kws thatp (c :: s)) as [n|] eqn:Hm.
    + apply sub_forbidden_match in Hm
        as (-> & _ & m & rest & _ & _ & Hrest & ->).
      destruct rest as [|e rest]; [done |].
      simpl in Hrest. rewrite sub_forbidden_nonword by done.
      simpl. intros [He _]%andb_true_iff.
      apply ci_eq_is_word in He. simpl in Hk. congruence.
    + rewrite sub_forbidden_no_match by done. simpl.
      intros [Hkc Htail]%andb_true_iff. rewrite Hkc. simpl.
      apply IH; [| done].
      apply ci_eq_is_word in Hkc. by rewrite <- Hkc.
Qed.
End SubForbidden.

(** *** Keyword-free strings *)

Lemma keyword_matches_nil (thatp : bool) (kw : pystr) :
  plain_keyword kw = true -> keyword_matches thatp [] kw = false.
Proof.
  intros (k & ks & -> & _)%plain_keyword_cons.
  unfold keyword_matches. simpl. apply andb_false_r.
Qed.

Lemma keyword_matches_nonword (thatp : bool) (c : ascii) (s kw : pystr) :
  plain_keyword kw = true -> is_word c = false ->
  keyword_matches thatp (c :: s) kw = false.
Proof.
  intros Hplain Hc. destruct (keyword_matches thatp (c :: s) kw) eqn:Hm; [| done].
  apply keyword_matches_plain in Hm as (_ & Hhead & _); [| done].
  simpl in Hhead. congruence.
Qed.

Lemma clean_nil (kws : list pystr) (thatp : bool) :
  forallb plain_keyword kws = true -> clean kws thatp [].
Proof.
  intros Hplain. split; [| done]. intros kw Hin.
  apply keyword_matches_nil. by apply kws_plain_elem with (kws := kws).
Qed.

(** The output of the substitution has no match of a plain keyword.
    [thatp_in] is the class of the character before the position in the
    input, [thatp_out] in the output; they differ only behind a match. *)
Lemma sub_forbidden_clean (kws : list pystr) (n : nat) (s : pystr)
    (thatp_in thatp_out : bool) :
  forallb plain_keyword kws = true ->
  (length s <= n)%nat ->
  thatp_out = thatp_in \/ (thatp_out = false /\ head_is_word s = false) ->
  clean kws thatp_out (sub_forbidden_go kws thatp_in 0 s).
Proof.
  intros Hplain. revert s thatp_in thatp_out.
  induction n as [|n IH]; intros s thatp_in thatp_out Hlen Hinv.
  { destruct s; [| simpl in Hlen; lia]. by apply clean_nil. }
  destruct s as [|c s]; [by apply clean_nil |].
  destruct (forbidden_match kws thatp_in (c :: s)) as [k|] eqn:Hm.
  - apply (sub_forbidden_match kws Hplain) in Hm
      as (-> & Hhead & m & rest & Hs & Hne & Hrest & ->).
    apply IH.
    + apply (f_equal length) in Hs. rewrite length_app in Hs.
      destruct m; [done |]. simpl in *. lia.
    + right. split; [| done].
      destruct Hinv as [-> | [-> _]]; done.
  - rewrite (sub_forbidden_no_match kws) by done.
    split; [| apply IH; [simpl in Hlen; lia | by left]].
    intros kw Hin.
    pose proof (kws_plain_elem kws Hplain kw Hin) as Hkw.
    destruct Hinv as [-> | [-> Hc]].
    + destruct (keyword_matches thatp_in
                  (c :: sub_forbidden_go kws (is_word c) 0 s) kw) eqn:Hout;
        [| done].
      rewrite <- (forbidden_match_None kws Hplain _ _ Hm kw Hin).
      unfold keyword_matches in *.
      apply andb_true_iff in Hout as [Hl Hr].
      change (at_boundary thatp_in (c :: s))
        with (at_boundary thatp_in (c :: sub_forbidden_go kws (is_word c) 0 s)).
      rewrite Hl. simpl.
      apply plain_keyword_cons in Hkw as (k & ks & -> & Hk & Hks).
      simpl in Hr |- *. apply andb_true_iff in Hr as [Hkc Hr].
      rewrite Hkc. simpl. symmetry.
      apply (match_tail_sub_forbidden kws Hplain); [| done].
      apply ci_eq_is_word in Hkc. by rewrite <- Hkc, Hk.
    + by apply keyword_matches_nonword.
Qed.

Lemma clean_drop (kws : list pystr) (thatp : bool) (a b : pystr) :
  clean kws thatp (a ++ b) -> clean kws (word_after thatp a) b.
Proof.
  revert thatp. induction a as [|c a IH]; intros thatp; [done |].
  simpl. intros [_ H]. rewrite word_after_cons. by apply IH.
Qed.

Lemma match_tail_app (thatp : bool) (x b kw : pystr) :
  head_is_word b = false ->
  match_tail thatp x kw = true -> match_tail thatp (x ++ b) kw = true.
Proof.
  intros Hb. revert thatp x. induction kw as [|k kw IH]; intros thatp x; simpl.
  - unfold at_boundary. destruct x; simpl; [by rewrite Hb | done].
  - destruct x as [|c x]; [done |]. simpl.
    intros [-> H]%andb_true_iff. simpl. by apply IH.
Qed.

Lemma keyword_matches_app (thatp : bool) (x b kw : pystr) :
  head_is_word b = false ->
  keyword_matches thatp (x ++ b) kw = false ->
  keyword_matches thatp x kw = false.
Proof.
  intros Hb Hno. destruct (keyword_matches thatp x kw) eqn:Hm; [| done].
  rewrite <- Hno. unfold keyword_matches in *.
  apply andb_true_iff in Hm as [Hl Hr].
  rewrite (match_tail_app _ _ _ _ Hb Hr), andb_true_r.
  unfold at_boundary in *. destruct x; simpl in *; [by rewrite Hb | done].
Qed.

Lemma clean_take (kws : list pystr) (thatp : bool) (x b : pystr) :
  head_is_word b = false -> clean kws thatp (x ++ b) -> clean kws thatp x.
Proof.
  intros Hb. revert thatp. induction x as [|c x IH]; intros thatp.
  - intros H. split; [| done].
    intros kw Hin. apply (keyword_matches_app _ [] b); [done |].
    simpl. destruct b; destruct H as [H _]; by apply H.
  - simpl. intros [H Hrest]. split; [| by apply IH].
    intros kw Hin. apply (keyword_matches_app _ (c :: x) b); [done | by apply H].
Qed.

(** A string without matches has no whole-word occurrence of a keyword. *)
Lemma clean_no_occurrence (kws : list pystr) (s kw : pystr) :
  clean kws false s -> kw ∈ kws -> ~ whole_word_occurrence kw s.
Proof.
  intros Hclean Hin (_ & a & b & -> & Hm)%whole_word_occurrence_match.
  apply clean_drop in Hclean. destruct b; destruct Hclean as [Hno _];
    specialize (Hno kw Hin); unfold last_is_word in Hm;
    unfold word_after in Hno; congruence.
Qed.

(** *** Stripping *)

Lemma lstrip_split (p : ascii -> bool) (s : pystr) :
  exists a, s = a ++ lstrip p s /\ Forall (fun c => p c = true) a.
Proof.
  induction s as [|c s (a & Hs & Ha)]; simpl.
  - by exists [].
  - destruct (p c) eqn:Hc.
    + exists (c :: a). split; [simpl; congruence | by constructor].
    + by exists [].
Qed.

Lemma lstrip_head (p : ascii -> bool) (s : pystr) (c : ascii) :
  head (lstrip p s) = Some c -> p c = false.
Proof.
  induction s as [|c' s IH]; simpl; [done |].
  destruct (p c') eqn:Hc; [done |]. simpl. congruence.
Qed.

Lemma rev_reverse {A} (l : list A) : rev l = reverse l.
Proof. apply rev_alt. Qed.

Lemma rstrip_split (p : ascii -> bool) (s : pystr) :
  exists b, s = rstrip p s ++ b /\ Forall (fun c => p c = true) b.
Proof.
  unfold rstrip. destruct (lstrip_split p (rev s)) as (a & Hs & Ha).
  exists (rev a). split.
  - apply (f_equal (@rev ascii)) in Hs.
    by rewrite rev_involutive, rev_app_distr in Hs.
  - rewrite rev_reverse. by apply Forall_reverse.
Qed.

Lemma rstrip_last (p : ascii -> bool) (s : pystr) (c : ascii) :
  last (rstrip p s) = Some c -> p c = false.
Proof.
  unfold rstrip. rewrite rev_reverse, last_reverse. apply lstrip_head.
Qed.

(** The stripped string neither starts nor ends with a stripped
    character. *)
Lemma strip_ends (p : ascii -> bool) (s : pystr) (c : ascii) :
  head (strip p s) = Some c \/ last (strip p s) = Some c -> p c = false.
Proof.
  unfold strip. intros [Hhead | Hlast]; [| by eapply rstrip_last].
  destruct (rstrip_split p (lstrip p s)) as (b & Hs & _).
  destruct (rstrip p (lstrip p s)) as [|c' y]; [done |].
  simpl in Hhead. injection Hhead as ->.
  apply (lstrip_head p s). by rewrite Hs.
Qed.

Lemma nonword_word_after (a : pystr) :
  Forall (fun c => is_word c = false) a -> word_after false a = false.
Proof.
  unfold word_after. intros Ha.
  destruct (last a) as [c|] eqn:Hlast; [| done].
  apply last_Some_elem_of in Hlast.
  by apply (proj1 (Forall_forall _ _) Ha).
Qed.

Lemma nonword_head (b : pystr) :
  Forall (fun c => is_word c = false) b -> head_is_word b = false.
Proof. by destruct 1. Qed.

Lemma clean_strip (kws : list pystr) (p : ascii -> bool) (s : pystr) :
  (forall c, p c = true -> is_word c = false) ->
  clean kws false s -> clean kws false (strip p s).
Proof.
  intros Hp Hclean. unfold strip.
  destruct (lstrip_split p s) as (a & Hs & Ha).
  destruct (rstrip_split p (lstrip p s)) as (b & Hx & Hb).
  rewrite Hs in Hclean. apply clean_drop in Hclean.
  rewrite nonword_word_after in Hclean
    by (eapply Forall_impl; [exact Ha | exact Hp]).
  rewrite Hx in Hclean. apply clean_take in Hclean; [done |].
  apply nonword_head. eapply Forall_impl; [exact Hb | exact Hp].
Qed.

(** *** The collapse of double dashes *)

Lemma spaces_take (s : pystr) :
  Forall (fun c => is_word c = false) (take (spaces s) s).
Proof.
  induction s as [|c s IH]; simpl; [constructor |].
  destruct (is_space c) eqn:Hc; simpl; [| constructor].
  constructor; [by apply is_space_not_word | done].
Qed.

Lemma dashes_match_split (s : pystr) (n : nat) :
  dashes_match s = Some n ->
  exists m rest, s = m ++ rest /\ length m = n /\ m <> []
    /\ Forall (fun c => is_word c = false) m.
Proof.
  unfold dashes_match.
  pose proof (take_drop (spaces s) s) as Hs.
  pose proof (spaces_take s) as Ha.
  destruct (drop (spaces s) s) as [|d1 s1] eqn:E1; [done |].
  destruct (is_dash d1) eqn:Hd1; [| done].
  pose proof (take_drop (spaces s1) s1) as Hs1.
  pose proof (spaces_take s1) as Hb.
  destruct (drop (spaces s1) s1) as [|d2 s2] eqn:E2; [done |].
  destruct (is_dash d2) eqn:Hd2; [| done].
  pose proof (take_drop (spaces s2) s2) as Hs2.
  pose proof (spaces_take s2) as Hc.
  intros [= <-].
  assert (Hlen : forall t : pystr, length (take (spaces t) t) = spaces t).
  { intros t. induction t as [|c t IH]; simpl; [done |].
    destruct (is_space c); simpl; congruence. }
  exists (take (spaces s) s ++ [d1] ++ take (spaces s1) s1 ++ [d2]
            ++ take (spaces s2) s2), (drop (spaces s2) s2).
  repeat split.
  - rewrite <- !app_assoc. simpl. rewrite Hs2, Hs1. done.
  - rewrite !length_app, !Hlen. simpl. lia.
  - destruct (take (spaces s) s); done.
  - repeat (apply Forall_app; split); try done;
      constructor; try constructor; by apply is_dash_not_word.
Qed.

Lemma sub_dashes_go_skip (k : nat) (s : pystr) :
  sub_dashes_go k s = sub_dashes_go 0 (drop k s).
Proof.
  revert s. induction k as [|k IH]; intros s; [done |].
  destruct s as [|c s]; [done |]. simpl. apply IH.
Qed.

Lemma sub_dashes_no_match (c : ascii) (s : pystr) :
  dashes_match (c :: s) = None ->
  sub_dashes_go 0 (c :: s) = c :: sub_dashes_go 0 s.
Proof. intros H. simpl sub_dashes_go. by rewrite H. Qed.

Lemma sub_dashes_match (s : pystr) (n : nat) :
  dashes_match s = Some n ->
  exists m rest, s = m ++ rest /\ m <> []
    /\ Forall (fun c => is_word c = false) m
    /\ sub_dashes_go 0 s = str " - " ++ sub_dashes_go 0 rest.
Proof.
  intros Hmatch.
  pose proof (dashes_match_split s n Hmatch) as (m & rest & -> & Hlen & Hne & Hm).
  exists m, rest. repeat split; [done | done |].
  destruct m as [|c m]; [done |].
  change ((c :: m) ++ rest) with (c :: (m ++ rest)) in *.
  simpl sub_dashes_go. rewrite Hmatch. rewrite sub_dashes_go_skip.
  assert (Nat.pred n = length m) as -> by (simpl in Hlen; lia).
  by rewrite drop_app_length.
Qed.

Lemma match_tail_sub_dashes (ks s : pystr) (thatp : bool) :
  spaced thatp ks = true ->
  match_tail thatp (sub_dashes_go 0 s) ks = true ->
  match_tail thatp s ks = true.
Proof.
  revert s thatp. induction ks as [|k ks IH]; intros s thatp Hspaced.
  - simpl in Hspaced. subst thatp. simpl. unfold at_boundary.
    destruct s as [|c s]; [done |].
    destruct (dashes_match (c :: s)) as [n|] eqn:Hm.
    + apply sub_dashes_match in Hm as (m & rest & Hs & Hne & Hnw & _).
      destruct m as [|c' m]; [done |]. injection Hs as -> _.
      inversion Hnw as [|? ? Hc _]; subst. simpl. by rewrite Hc.
    + by rewrite sub_dashes_no_match.
  - simpl in Hspaced. apply andb_true_iff in Hspaced as [Hk Hspaced].
    destruct s as [|c s]; [done |].
    destruct (dashes_match (c :: s)) as [n|] eqn:Hm.
    + apply sub_dashes_match in Hm as (m & rest & _ & _ & _ & ->).
      simpl. intros [Hsp Htail]%andb_true_iff.
      apply ci_eq_is_word in Hsp. change (is_word " ") with false in *.
      rewrite Hsp in Hspaced.
      destruct ks as [|k2 ks]; [done |].
      simpl in Hspaced, Htail.
      apply andb_true_iff in Hspaced as [Hk2 _].
      apply andb_true_iff in Htail as [Hdash _].
      apply ci_eq_is_word in Hdash. change (is_word "-") with false in *.
      congruence.
    + rewrite sub_dashes_no_match by done. simpl.
      intros [Hkc Htail]%andb_true_iff. rewrite Hkc. simpl.
      apply IH; [| done].
      apply ci_eq_is_word in Hkc. by rewrite <- Hkc.
Qed.

Lemma sub_dashes_clean (kws : list pystr) (n : nat) (s : pystr)
    (thatp : bool) :
  forallb plain_keyword kws = true ->
  (length s <= n)%nat ->
  clean kws thatp s -> clean kws thatp (sub_dashes_go 0 s).
Proof.
  intros Hplain. revert s thatp.
  induction n as [|n IH]; intros s thatp Hlen Hclean.
  { destruct s; [| simpl in Hlen; lia]. done. }
  destruct s as [|c s]; [done |].
  destruct (dashes_match (c :: s)) as [k|] eqn:Hm.
  - apply sub_dashes_match in Hm as (m & rest & Hs & Hne & Hnw & ->).
    assert (Hrest : clean kws false (sub_dashes_go 0 rest)).
    { apply IH.
      - apply (f_equal length) in Hs. rewrite length_app in Hs.
        destruct m; [done |]. simpl in *. lia.
      - rewrite Hs in Hclean. apply clean_drop in Hclean.
        assert (word_after thatp m = false) as Hlast; [| by rewrite Hlast in Hclean].
        unfold word_after. destruct (last m) as [c'|] eqn:Hl.
        + apply last_Some_elem_of in Hl.
          by apply (proj1 (Forall_forall _ _) Hnw).
        + by apply last_None in Hl. }
    simpl.
    repeat (split;
      [intros kw Hin; apply keyword_matches_nonword;
         [by apply kws_plain_elem with (kws := kws) | reflexivity] |]).
    exact Hrest.
  - rewrite sub_dashes_no_match by done.
    destruct Hclean as [Hno Hclean].
    split; [| apply IH; [simpl in Hlen; lia | done]].
    intros kw Hin.
    pose proof (kws_plain_elem kws Hplain kw Hin) as Hkw.
    destruct (keyword_matches thatp (c :: sub_dashes_go 0 s) kw) eqn:Hout;
      [| done].
    rewrite <- (Hno kw Hin).
    unfold keyword_matches in *.
    apply andb_true_iff in Hout as [Hl Hr].
    change (at_boundary thatp (c :: s))
      with (at_boundary thatp (c :: sub_dashes_go 0 s)).
    rewrite Hl. simpl.
    apply plain_keyword_cons in Hkw as (k & ks & -> & Hk & Hks).
    simpl in Hr |- *. apply andb_true_iff in Hr as [Hkc Hr].
    rewrite Hkc. simpl. symmetry.
    apply match_tail_sub_dashes; [| done].
    apply ci_eq_is_word in Hkc. by rewrite <- Hkc, Hk.
Qed.

(** *** The fallback of [_anonymize_title] *)

Lemma sub_forbidden_unchanged (kws : list pystr) (a b : pystr) :
  (forall kw, kw ∈ kws -> ~ whole_word_occurrence kw (a ++ b)) ->
  sub_forbidden_go kws (last_is_word a) 0 b = b.
Proof.
  revert a. induction b as [|c b IH]; intros a Hnone; [done |].
  simpl. unfold forbidden_match.
  destruct (find _ kws) as [kw|] eqn:Hfind; simpl.
  - exfalso. apply find_some in Hfind as [Hin [Hne Hm]%andb_true_iff].
    apply (Hnone kw); [by apply list_elem_of_In |].
    apply whole_word_occurrence_match.
    split; [by destruct kw | eauto].
  - f_equal.
    assert (is_word c = last_is_word (a ++ [c])) as ->.
    { unfold last_is_word. by rewrite last_snoc. }
    apply IH. by rewrite <- app_assoc.
Qed.

Lemma pre_sanitized_title_clean (cfg : Config) (title : pystr) :
  forallb plain_keyword (FORBIDDEN_KEYWORDS cfg) = true ->
  FORBIDDEN_KEYWORDS cfg <> [] ->
  clean (FORBIDDEN_KEYWORDS cfg) false (pre_sanitized_title cfg title).
Proof.
  intros Hplain Hne. unfold pre_sanitized_title.
  destruct (FORBIDDEN_KEYWORDS cfg) as [|kw0 kws] eqn:Hkws; [done |].
  apply clean_strip; [apply is_space_or_dash_not_word |].
  apply (sub_dashes_clean _ _ _ _ Hplain (Nat.le_refl _)).
  apply clean_strip; [apply is_space_not_word |].
  apply (sub_forbidden_clean _ _ _ _ _ Hplain (Nat.le_refl _)). by left.
Qed.


(** Names, full names and addresses satisfy the condition on keywords of
    the last part. *)
Lemma plain_keywords_example :
  forallb plain_keyword
    [str "alice"; str "John Smith"; str "j.smith@acme.org"] = true
  /\ plain_keyword (str "acme, inc") = false.
Proof. split; reflexivity. Qed.


(** * Further properties of the code *)

(** ** Running a command *)

Lemma lstrip_all (p : ascii -> bool) (a x : pystr) :
  Forall (fun c => p c = true) a -> lstrip p (a ++ x) = lstrip p x.
Proof. induction 1 as [|c a Hc _ IH]; simpl; [done | by rewrite Hc]. Qed.

Lemma lstrip_none (p : ascii -> bool) (x : pystr) :
  (forall c, head x = Some c -> p c = false) -> lstrip p x = x.
Proof. destruct x as [|c x]; simpl; [done |]. intros H. by rewrite H. Qed.

(** Stripping a string that is padded on both sides gives the string
    between the paddings. *)
Lemma strip_padded (p : ascii -> bool) (a m b : pystr) :
  Forall (fun c => p c = true) a -> Forall (fun c => p c = true) b ->
  (forall c, head m = Some c \/ last m = Some c -> p c = false) ->
  m <> [] ->
  strip p (a ++ m ++ b) = m.
Proof.
  intros Ha Hb Hm Hne. unfold strip, rstrip.
  rewrite lstrip_all by done.
  rewrite (lstrip_none p (m ++ b)).
  - rewrite rev_app_distr, lstrip_all.
    + rewrite lstrip_none; [apply rev_involutive |].
      intros c Hc. apply Hm. right.
      by rewrite rev_reverse, head_reverse in Hc.
    + rewrite rev_reverse. by apply Forall_reverse.
  - intros c Hc. apply Hm. left. destruct m; [done | exact Hc].
Qed.

(** X1. [_run_command] returns output only for an exit status of 0, and
    then the standard output without the white space around it: the result
    neither starts nor ends with white space, and the standard output is the
    result between two runs of white space. A time-out and a non-zero exit
    status give [None]; any other failure of the call is raised. *)
Theorem run_command_output (run : ProcessResult) :
  (forall out, _run_command run = Output out ->
     exists stdout stderr before after,
       run = Completed 0 stdout stderr
       /\ stdout = before ++ out ++ after
       /\ Forall (fun c => is_space c = true) before
       /\ Forall (fun c => is_space c = true) after
       /\ forall c, head out = Some c \/ last out = Some c ->
            is_space c = false)
  /\ (_run_command run = NoResult <->
      run = TimeoutExpired
      \/ exists returncode stdout stderr,
           run = Completed returncode stdout stderr /\ returncode <> 0)
  /\ (_run_command run = Raises <-> run = OtherError).
Proof.
  split; [| split].
  - intros out Hout. destruct run as [rc stdout stderr | |]; try done.
    simpl in Hout. destruct (Z.eqb_spec rc 0) as [-> |]; [| done].
    injection Hout as <-.
    destruct (lstrip_split is_space stdout) as (before & Hs & Hb).
    destruct (rstrip_split is_space (lstrip is_space stdout))
      as (after & Hx & Ha).
    exists stdout, stderr, before, after.
    split; [done |]. split; [| split; [done | split; [done |]]].
    + unfold strip. by rewrite <- Hx.
    + apply strip_ends.
  - destruct run as [rc stdout stderr | |]; simpl.
    + destruct (Z.eqb_spec rc 0) as [-> |]; split; try done.
      * intros [? | (rc' & o & e & [= <- _ _] & Hne)]; done.
      * intros _. right. eauto.
    + split; [by left | done].
    + split; [done |]. intros [? | (rc' & o & e & ? & _)]; done.
  - destruct run as [rc stdout stderr | |]; simpl; [| done | done].
    destruct (rc =? 0); done.
Qed.

(** ** The idle time *)

Lemma string_of_uint_digits (d : Decimal.uint) :
  forallb is_digit_char (str (NilEmpty.string_of_uint d)) = true.
Proof. induction d; simpl; [done | exact IHd ..]. Qed.

Lemma str_of_Z_string (n : Z) :
  string_of_list_ascii (str_of_Z n) = NilZero.string_of_int (Z.to_int n).
Proof. apply string_of_list_ascii_of_string. Qed.

Lemma str_of_Z_nonneg (n : Z) :
  0 <= n ->
  exists d, d <> Decimal.Nil
    /\ str_of_Z n = str (NilEmpty.string_of_uint d) /\ Z.of_uint d = n.
Proof.
  intros Hn. destruct n as [|p|p]; [| | lia].
  - exists (Decimal.D0 Decimal.Nil). done.
  - exists (Pos.to_uint p). split; [apply DecimalPos.Unsigned.to_uint_nonnil |].
    split.
    + unfold str_of_Z. simpl. unfold NilZero.string_of_uint.
      pose proof (DecimalPos.Unsigned.to_uint_nonnil p).
      by destruct (Pos.to_uint p).
    + unfold Z.of_uint. by rewrite DecimalPos.Unsigned.of_to.
Qed.

Lemma str_of_Z_ends (n : Z) (c : ascii) :
  head (str_of_Z n) = Some c \/ last (str_of_Z n) = Some c ->
  is_space c = false.
Proof.
  intros Hc.
  assert (c ∈ str_of_Z n) as Hin.
  { destruct Hc as [Hc | Hc]; [| by apply last_Some_elem_of].
    destruct (str_of_Z n); [done |]. injection Hc as ->. by left. }
  apply str_of_Z_chars in Hin.
  assert (Forall (fun c => is_space c = false) (str "-0123456789")) as Hall
    by (repeat constructor).
  by apply (proj1 (Forall_forall _ _) Hall).
Qed.

Lemma isdigit_forall (s : pystr) :
  isdigit s = true -> Forall (fun c => is_digit_char c = true) s.
Proof.
  unfold isdigit. intros [_ H]%andb_true_iff.
  apply Forall_forall. intros c Hc. rewrite forallb_forall in H.
  apply H. by apply list_elem_of_In.
Qed.

Lemma uint_of_string_nonneg (s : pystr) (ms : Z) :
  int_of_digits s = Some ms -> 0 <= ms.
Proof.
  unfold int_of_digits.
  destruct (NilEmpty.uint_of_string _) as [d|]; [| done].
  intros [= <-]. unfold Z.of_uint. lia.
Qed.

(** X2. [_get_idle_time_ms] reads back the number that [xprintidle]
    prints: for a non-negative [n] printed in decimal, with any white space
    around it, the result is [n]. It never returns a negative number, and it
    returns [None] when the command gives no result, prints nothing, or
    prints a character that is not a digit. *)
Theorem get_idle_time_ms_reads (result : CmdOutcome) :
  (forall n before after stderr,
     0 <= n ->
     Forall (fun c => is_space c = true) before ->
     Forall (fun c => is_space c = true) after ->
     _get_idle_time_ms
       (_run_command (Completed 0 (before ++ str_of_Z n ++ after) stderr))
     = IdleMs n)
  /\ (forall ms, _get_idle_time_ms result = IdleMs ms -> 0 <= ms)
  /\ (result = NoResult -> _get_idle_time_ms result = IdleNone)
  /\ (forall out, result = Output out ->
        out = [] \/ (exists c, c ∈ out /\ is_digit_char c = false) ->
        _get_idle_time_ms result = IdleNone).
Proof.
  split; [| split; [| split]].
  - intros n before after stderr Hn Hb Ha. simpl.
    destruct (str_of_Z_nonneg n Hn) as (d & Hd & Hstr & Hval).
    rewrite strip_padded; [| done | done | apply str_of_Z_ends |].
    + rewrite Hstr. unfold isdigit.
      rewrite string_of_uint_digits.
      assert (truthy (str (NilEmpty.string_of_uint d)) = true) as ->
        by (by destruct d).
      simpl. unfold int_of_digits.
      unfold str. rewrite string_of_list_ascii_of_string.
      rewrite NilEmpty.usu. simpl. by rewrite Hval.
    + rewrite Hstr. by destruct d.
  - intros ms. destruct result as [out | |]; simpl; [| done | done].
    destruct (truthy out && isdigit out); [| done].
    destruct (int_of_digits out) as [n|] eqn:Hint; [| done].
    intros [= <-]. by eapply uint_of_string_nonneg.
  - by intros ->.
  - intros out -> [-> | (c & Hin & Hc)]; [done |]. simpl.
    destruct (isdigit out) eqn:Hd; [| by rewrite andb_false_r].
    apply isdigit_forall in Hd.
    pose proof (proj1 (Forall_forall _ _) Hd c Hin). congruence.
Qed.

(** ** The lock state *)

Lemma first_active_true (get_active : pystr -> option bool)
    (services : list pystr) :
  first_active get_active services = true <->
  exists service,
    first_with (fun s => is_Some (get_active s)) services service
    /\ get_active service = Some true.
Proof.
  induction services as [|s rest IH]; simpl.
  - split; [done |]. intros (service & (i & Hi & _) & _). by destruct i.
  - destruct (get_active s) as [active|] eqn:Hs.
    + split.
      * intros ->. exists s. split; [| done].
        exists 0%nat. repeat split; [by rewrite Hs | lia].
      * intros (service & (i & Hi & _ & Hmin) & Hactive).
        destruct i as [|i]; [simpl in Hi; congruence |].
        exfalso. apply (Hmin 0%nat s); [lia | done | by rewrite Hs].
    + rewrite IH. split.
      * intros (service & (i & Hi & Hsome & Hmin) & Hactive).
        exists service. split; [| done].
        exists (S i). repeat split; [done | done |].
        intros [|j] y Hj Hy; simpl in Hy.
        -- injection Hy as <-. rewrite Hs. by intros [? ?].
        -- apply (Hmin j); [lia | done].
      * intros (service & (i & Hi & Hsome & Hmin) & Hactive).
        destruct i as [|i]; [simpl in Hi; congruence |].
        exists service. split; [| done].
        exists i. repeat split; [done | done |].
        intros j y Hj Hy. apply (Hmin (S j)); [lia | done].
Qed.

(** X3. [_is_screen_locked] answers with the first service, in the fixed
    order, whose call does not raise: the result is [True] exactly when the
    session bus is reached and that first service reports an active screen
    saver. A service that reports an inactive one ends the search; without
    bus or without any service that answers, the result is [False]. *)
Theorem is_screen_locked_first_service
    (session_bus : option (pystr -> option bool)) :
  (_is_screen_locked session_bus = true <->
   exists get_active service,
     session_bus = Some get_active
     /\ first_with (fun s => is_Some (get_active s))
                   screen_saver_services service
     /\ get_active service = Some true)
  /\ (session_bus = None -> _is_screen_locked session_bus = false)
  /\ (forall get_active,
        session_bus = Some get_active ->
        (forall s, s ∈ screen_saver_services -> get_active s = None) ->
        _is_screen_locked session_bus = false).
Proof.
  split; [| split].
  - destruct session_bus as [get_active|]; unfold _is_screen_locked.
    + rewrite first_active_true. split.
      * intros (service & ? & ?). eauto.
      * intros (g & service & [= <-] & ? & ?). eauto.
    + split; [done |]. by intros (g & service & ? & _).
  - by intros ->.
  - intros get_active -> Hnone. unfold _is_screen_locked.
    destruct (first_active get_active screen_saver_services) eqn:E; [| done].
    apply first_active_true in E as (service & (i & Hi & _) & Hactive).
    rewrite Hnone in Hactive; [done |]. by eapply list_elem_of_lookup_2.
Qed.

(** ** More on the title sanitizer *)

Lemma last_chars_length (k : nat) (s : pystr) :
  (k <= length s)%nat -> length (last_chars k s) = k.
Proof. intros H. unfold last_chars. rewrite length_drop. lia. Qed.

(** The two ways [_sanitize_window_title] ends. *)
Lemma sanitize_window_title_result (cfg : Config) (title : pystr) :
  (exists browser rule,
     browser ∈ KNOWN_BROWSERS cfg /\ rule ∈ TITLE_CLEANUP_RULES cfg
     /\ ends_with title browser /\ occurs_in rule.1 title
     /\ _sanitize_window_title cfg title = rule.2 ++ str " - " ++ browser)
  \/ _sanitize_window_title cfg title =
       if Z.of_nat (length title) >? MAX_TITLE_LENGTH cfg
       then str "..." ++ slice_from title (- (MAX_TITLE_LENGTH cfg - 3))
       else title.
Proof.
  unfold _sanitize_window_title.
  destruct (find (endswith title) (KNOWN_BROWSERS cfg)) as [browser|] eqn:Hb;
    [| by right].
  destruct (truthy browser); [| by right].
  destruct (find (fun rule => contains title rule.1) (TITLE_CLEANUP_RULES cfg))
    as [[keyword clean_name]|] eqn:Hr; [| by right].
  left. apply find_some in Hb as [Hbin Hbend].
  apply find_some in Hr as [Hrin Hrocc].
  exists browser, (keyword, clean_name).
  repeat split; [by apply list_elem_of_In | by apply list_elem_of_In
                | by apply endswith_spec | by apply contains_spec].
Qed.

(** X4. With [MAX_TITLE_LENGTH] above 3, [_sanitize_window_title] either
    applies a cleanup rule, returning [clean_name - browser] for a browser
    name the title ends with and a rule whose keyword occurs in it, or
    returns at most [MAX_TITLE_LENGTH] characters: the title itself when it
    is short enough, and otherwise exactly [MAX_TITLE_LENGTH] characters
    that start with three dots. A result built from a rule is not
    shortened. *)
Theorem sanitize_window_title_length (cfg : Config) (title : pystr) :
  3 < MAX_TITLE_LENGTH cfg ->
  let result := _sanitize_window_title cfg title in
  (exists browser rule,
     browser ∈ KNOWN_BROWSERS cfg /\ rule ∈ TITLE_CLEANUP_RULES cfg
     /\ ends_with title browser /\ occurs_in rule.1 title
     /\ result = rule.2 ++ str " - " ++ browser)
  \/ (Z.of_nat (length title) <= MAX_TITLE_LENGTH cfg /\ result = title)
  \/ (MAX_TITLE_LENGTH cfg < Z.of_nat (length title)
      /\ Z.of_nat (length result) = MAX_TITLE_LENGTH cfg
      /\ take 3 result = str "..."
      /\ ends_with title (drop 3 result)).
Proof.
  intros Hmax result.
  destruct (sanitize_window_title_result cfg title) as [Hrule | Hrest];
    [by left |].
  right. fold result in Hrest.
  destruct (Z.gtb_spec (Z.of_nat (length title)) (MAX_TITLE_LENGTH cfg))
    as [Hlong | Hshort]; [right | by left].
  rewrite slice_from_last in Hrest by lia.
  split; [lia |]. rewrite Hrest. split; [| split; [done |]].
  - rewrite length_app, last_chars_length by lia. simpl. lia.
  - simpl. unfold last_chars.
    exists (take (length title - Z.to_nat (MAX_TITLE_LENGTH cfg - 3)) title).
    symmetry.
    apply (take_drop (length title - Z.to_nat (MAX_TITLE_LENGTH cfg - 3)) title).
Qed.

Lemma sanitize_window_title_length_witness :
  let cfg := example_config in
  let title := str "A very long window title that does not name any browser at all, really" in
  let result := _sanitize_window_title cfg title in
  (exists browser rule,
     browser ∈ KNOWN_BROWSERS cfg /\ rule ∈ TITLE_CLEANUP_RULES cfg
     /\ ends_with title browser /\ occurs_in rule.1 title
     /\ result = rule.2 ++ str " - " ++ browser)
  \/ (Z.of_nat (length title) <= MAX_TITLE_LENGTH cfg /\ result = title)
  \/ (MAX_TITLE_LENGTH cfg < Z.of_nat (length title)
      /\ Z.of_nat (length result) = MAX_TITLE_LENGTH cfg
      /\ take 3 result = str "..."
      /\ ends_with title (drop 3 result)).
Proof.
  apply (sanitize_window_title_length example_config
    (str "A very long window title that does not name any browser at all, really")).
  reflexivity.
Defined.

Lemma sanitize_window_title_truthy (cfg : Config) (title : pystr) :
  truthy title = true -> truthy (_sanitize_window_title cfg title) = true.
Proof.
  intros Htitle.
  destruct (sanitize_window_title_result cfg title)
    as [(browser & rule & _ & _ & _ & _ & ->) | ->].
  - by destruct rule.2.
  - by destruct (_ >? _).
Qed.

Lemma or_desktop_truthy (x : option pystr) : truthy (or_desktop x) = true.
Proof. destruct x as [t|]; simpl; [| done]. by destruct (truthy t) eqn:E. Qed.

(** ** More on the recorder *)

Lemma insert_or_ignore_lookup (ts ts' : Z) (title : pystr) (apm : Z)
    (table : gmap Z (pystr * Z)) :
  insert_or_ignore ts title apm table !! ts' =
    match table !! ts' with
    | Some row => Some row
    | None => if decide (ts' = ts) then Some (title, apm) else None
    end.
Proof.
  unfold insert_or_ignore. destruct (table !! ts) as [row|] eqn:Hts.
  - destruct (table !! ts') as [row'|] eqn:Hts'; [done |].
    case_decide; [congruence | done].
  - destruct (decide (ts' = ts)) as [-> | Hne].
    + by rewrite lookup_insert_eq, Hts.
    + rewrite lookup_insert_ne by done. by destruct (table !! ts').
Qed.

(** The title and the [apm] that a cycle passes to the [INSERT]. *)
Lemma log_activity_cycle_row (cfg : Config) (env : Env) (w : World) :
  exists final_title apm_count,
    truthy final_title = true /\ 0 <= apm_count
    /\ (log_activity_cycle cfg env w).1.(activity) =
         if storage_ok env then
           delete_before
             (now_cutoff env - microseconds_of_hours (LOG_RETENTION_HOURS cfg))
             (insert_or_ignore (now_insert env) final_title apm_count
                               (activity w))
         else activity w.
Proof.
  unfold log_activity_cycle. destruct (screen_locked env).
  - exists (str "USER_AFK_LOCKED"), 0. by repeat split.
  - unfold evict_and_count. simpl.
    eexists _, _. split; [| split; [| reflexivity]].
    + apply sanitize_window_title_truthy, or_desktop_truthy.
    + lia.
Qed.

(** X5. A cycle of the recorder keeps the table well formed: when every
    stored row has a non-empty title and a non-negative [apm], the same
    holds after the cycle, whatever the lock state, the window title (absent
    and empty titles are stored as the sanitized ["Desktop"]) and the
    storage do. *)
Theorem log_activity_cycle_table_ok (cfg : Config) (env : Env) (w : World) :
  table_ok (activity w) ->
  table_ok (activity (log_activity_cycle cfg env w).1).
Proof.
  intros Hok.
  destruct (log_activity_cycle_row cfg env w)
    as (final_title & apm_count & Htitle & Hapm & ->).
  destruct (storage_ok env); [| done].
  intros ts row Hrow. rewrite delete_before_lookup in Hrow.
  case_decide; [done |]. rewrite insert_or_ignore_lookup in Hrow.
  destruct (activity w !! ts) as [row'|] eqn:Hold.
  - injection Hrow as <-. by apply (Hok ts).
  - case_decide; [| done]. by injection Hrow as <-.
Qed.

Lemma log_activity_cycle_table_ok_witness :
  table_ok (activity (log_activity_cycle example_config unlocked_env
                                         example_world).1)
  /\ activity (log_activity_cycle example_config unlocked_env
                                  example_world).1 !! at_time 10 0 0
     = Some (str "YouTube - Mozilla Firefox", 1).
Proof.
  split; [| reflexivity].
  apply (log_activity_cycle_table_ok example_config unlocked_env
           example_world).
  apply map_Forall_insert_2; [split; [reflexivity | done] |].
  apply map_Forall_insert_2; [split; [reflexivity | done] |].
  apply map_Forall_empty.
Defined.

(** X6. What a cycle of the recorder does to the table when the storage
    accepts the transaction: no row older than the retention horizon is
    left; a row that was there and is not older than the horizon is kept as
    it was, also when it has the time stamp of the new row ([INSERT OR
    IGNORE] does not overwrite); and no time stamp other than the new one is
    added. When the storage fails the table is unchanged. *)
Theorem log_activity_cycle_table (cfg : Config) (env : Env) (w : World)
    (ts : Z) :
  let table' := activity (log_activity_cycle cfg env w).1 in
  let horizon :=
    now_cutoff env - microseconds_of_hours (LOG_RETENTION_HOURS cfg) in
  (storage_ok env = true ->
     (ts < horizon -> table' !! ts = None)
     /\ (horizon <= ts -> forall row, activity w !! ts = Some row ->
           table' !! ts = Some row)
     /\ (ts <> now_insert env -> activity w !! ts = None ->
           table' !! ts = None))
  /\ (storage_ok env = false -> table' = activity w).
Proof.
  intros table' horizon. unfold table'.
  destruct (log_activity_cycle_row cfg env w)
    as (final_title & apm_count & _ & _ & ->).
  split.
  - intros ->. fold horizon.
    rewrite delete_before_lookup, insert_or_ignore_lookup.
    split; [| split].
    + intros Hold. by rewrite decide_True.
    + intros Hnew row ->. by rewrite decide_False by lia.
    + intros Hne ->. rewrite (decide_False (P := ts = now_insert env)) by done.
      by case_decide.
  - by intros ->.
Qed.

(** ** The deque under both loops *)






(** A run in which the sampler takes the lock between the recorder's
    reading of [now] and its taking the lock: the first tick is older than
    the window and is evicted; the last one is later than [now], is left
    in the deque and is counted in the row. *)
Lemma tick_after_now_is_counted :
  let env := {| screen_locked := false; window_title := Some (str "Editor");
                now_window := at_time 10 0 0; now_insert := at_time 10 0 2;
                now_cutoff := at_time 10 0 2; storage_ok := true |} in
  let events :=
    [Poll (Some 20) (at_time 9 58 59); Poll (Some 10) (at_time 9 59 30);
     Poll (Some 5) (at_time 10 0 1); Snapshot env] in
  let w := world (system_run example_config (system_init 0) events) in
  activity_ticks w = [at_time 9 59 30; at_time 10 0 1]
  /\ activity w !! at_time 10 0 2 = Some (str "Editor", 2).
Proof. split; reflexivity. Qed.

(** ** The average of a block *)

Lemma sum_bounds (values : list Z) (lo hi : Z) :
  Forall (fun v => lo <= v <= hi) values ->
  Z.of_nat (length values) * lo <= foldr Z.add 0 values
    <= Z.of_nat (length values) * hi.
Proof.
  induction 1 as [|v values Hv _ IH]; [simpl; lia |].
  change (foldr Z.add 0 (v :: values)) with (v + foldr Z.add 0 values).
  rewrite length_cons, Nat2Z.inj_succ. lia.
Qed.

Lemma quot_bounds (total n lo hi : Z) :
  0 < n -> n * lo <= total <= n * hi -> lo <= Z.quot total n <= hi.
Proof.
  intros Hn [Hlo Hhi]. destruct (Z.le_gt_cases 0 total) as [Hpos | Hneg].
  - rewrite Z.quot_div_nonneg by lia. split.
    + by apply Z.div_le_lower_bound.
    + by apply Z.div_le_upper_bound.
  - replace total with (- (- total)) by lia.
    rewrite Z.quot_opp_l by lia. rewrite Z.quot_div_nonneg by lia.
    assert (- hi <= (- total) / n) by (apply Z.div_le_lower_bound; lia).
    assert ((- total) / n <= - lo) by (apply Z.div_le_upper_bound; lia).
    lia.
Qed.

Lemma avg_apm_bounds (values : list Z) (lo hi : Z) :
  lo <= 0 <= hi ->
  Forall (fun v => lo <= v <= hi) values -> lo <= avg_apm values <= hi.
Proof.
  intros Hzero Hall. unfold avg_apm.
  destruct values as [|v values]; [done |].
  apply quot_bounds; [simpl; lia | by apply sum_bounds].
Qed.

Lemma cons_run_values (r : Run) (rs : list Run) (x : Run) (v : Z) :
  x ∈ cons_run r rs -> v ∈ run_values x ->
  v ∈ run_values r \/ exists y, y ∈ rs /\ v ∈ run_values y.
Proof.
  destruct rs as [|next more]; simpl.
  - intros ->%list_elem_of_singleton. auto.
  - case_bool_decide.
    + intros [-> | Hx]%elem_of_cons; simpl.
      * intros [? | ?]%elem_of_app; [by left |].
        right. exists next. split; [by left | done].
      * intros Hv. right. exists x. split; [by right | done].
    + intros [-> | Hx]%elem_of_cons; [by left |].
      intros Hv. right. eauto.
Qed.

Lemma runs_values (amap : gmap pystr pystr) (rows : list Row) (x : Run)
    (v : Z) :
  x ∈ runs amap rows -> v ∈ run_values x ->
  exists row, row ∈ rows /\ apm row = Some v.
Proof.
  revert x. induction rows as [|row rest IH]; intros x; simpl.
  - intros Hx. inversion Hx.
  - intros Hx Hv.
    destruct (cons_run_values _ _ _ _ Hx Hv) as [Hrow | (y & Hy & Hvy)].
    + exists row. split; [by left |]. simpl in Hrow.
      destruct (apm row) as [a|]; simpl in Hrow.
      * by apply list_elem_of_singleton in Hrow as ->.
      * inversion Hrow.
    + destruct (IH y Hy Hvy) as (row' & Hin & Ha).
      exists row'. split; [by right | done].
Qed.

(** X8. The average of a block lies between the bounds of the samples:
    when every [apm] of the queried rows is between [lo] and [hi], with
    [lo <= 0 <= hi] for the blocks without a sample, so is the average of
    every block of the timeline; in particular it is not negative for rows
    without negative samples. *)
Theorem block_avg_apm_bounds (amap : gmap pystr pystr) (rows : list Row)
    (now lo hi : Z) :
  lo <= 0 <= hi ->
  Forall (fun row => forall a, apm row = Some a -> lo <= a <= hi) rows ->
  Forall (fun b => lo <= block_avg_apm b <= hi)
         (build_timeline amap rows now).
Proof.
  intros Hzero Hrows. rewrite build_timeline_runs.
  apply Forall_forall. intros b Hb.
  apply list_elem_of_lookup in Hb as [i Hb].
  apply blocks_of_runs_lookup in Hb as (run & Hrun & _ & _ & -> & _).
  apply avg_apm_bounds; [done |].
  apply Forall_forall. intros v Hv.
  destruct (runs_values amap rows run v) as (row & Hin & Ha);
    [by eapply list_elem_of_lookup_2 | done |].
  by apply (proj1 (Forall_forall _ _) Hrows row Hin).
Qed.

Lemma block_avg_apm_bounds_witness :
  Forall (fun b => 0 <= block_avg_apm b <= 7)
    (build_timeline ∅
       [ {| timestamp := at_time 10 0 0; active_title := str "A";
            apm := Some 5 |};
         {| timestamp := at_time 10 1 0; active_title := str "A";
            apm := Some 7 |};
         {| timestamp := at_time 10 2 0; active_title := str "B";
            apm := None |} ]
       (at_time 10 5 0)).
Proof.
  apply (block_avg_apm_bounds ∅ _ (at_time 10 5 0) 0 7).
  - lia.
  - repeat (apply Forall_cons_2;
      [simpl; intros a Ha; try discriminate; injection Ha as <-; lia |]).
    apply Forall_nil_2.
Defined.

(** ** What a call leaves in the cache *)

Lemma fill_cache_submitted (cfg : Config) (ollama : pystr -> CmdOutcome)
    (todo : list pystr) (cache : gmap pystr pystr) (title : pystr) :
  NoDup todo -> title ∈ todo ->
  fill_cache cfg ollama cache todo !! title =
    Some (match ollama title with
          | Output sanitized => sanitized
          | NoResult => pre_sanitized_title cfg title
          | Raises => title
          end).
Proof.
  revert cache. induction todo as [|t todo IH]; intros cache Hnodup Hin;
    [by inversion Hin |].
  apply NoDup_cons in Hnodup as [Hfresh Hnodup].
  apply elem_of_cons in Hin as [-> | Hin].
  - pose proof (fill_cache_other cfg ollama todo) as Hother.
    unfold fill_cache in *. simpl. rewrite Hother by done.
    unfold _anonymize_title.
    destruct (ollama t); by rewrite lookup_insert_eq.
  - unfold fill_cache in *. simpl. by apply IH.
Qed.

Lemma fill_cache_lookup (cfg : Config) (ollama : pystr -> CmdOutcome)
    (todo : list pystr) (cache : gmap pystr pystr) (title : pystr) :
  NoDup todo ->
  fill_cache cfg ollama cache todo !! title =
    if decide (title ∈ todo) then
      Some (match ollama title with
            | Output sanitized => sanitized
            | NoResult => pre_sanitized_title cfg title
            | Raises => title
            end)
    else cache !! title.
Proof.
  intros Hnodup. case_decide.
  - by apply fill_cache_submitted.
  - by apply fill_cache_other.
Qed.

(** X9. The cache after a call of [get_activity_log] that got rows: an
    entry that was there is unchanged; a title of the rows that is to be
    redacted and had no entry has one now, which is the answer of the
    external call, the stage-1 title when the call gave no result, and the
    title as it is, without stage 1, when the call raised; no other entry
    is added. *)
Theorem get_activity_log_cache_entries (cfg : Config)
    (ollama : pystr -> CmdOutcome) (cache : gmap pystr pystr)
    (rows : list Row) (now hours_ago : Z) (title : pystr) :
  anonymization_cache
    (get_activity_log cfg ollama cache (Some rows) now hours_ago) !! title =
  match cache !! title with
  | Some cached => Some cached
  | None =>
      if decide (title ∈ unique_titles rows) then
        Some (match ollama title with
              | Output sanitized => sanitized
              | NoResult => pre_sanitized_title cfg title
              | Raises => title
              end)
      else None
  end.
Proof.
  destruct (get_activity_log_cache cfg ollama cache (Some rows) now hours_ago)
    as (-> & Hnodup & Hsub).
  rewrite (Hsub rows eq_refl) in *. rewrite fill_cache_lookup by done.
  destruct (decide (title ∈ titles_to_anonymize cache (unique_titles rows)))
    as [[Hin ->]%elem_of_titles_to_anonymize | Hnot].
  - by rewrite decide_True.
  - destruct (cache !! title) as [cached|] eqn:Hcache; [done |].
    rewrite decide_False; [done |].
    intros Hin. apply Hnot. by apply elem_of_titles_to_anonymize.
Qed.

(** ** The text without blocks *)

(** X10. When no block of the timeline lasts half of
    [LOG_INTERVAL_SECONDS], as for a single snapshot that has just been
    taken, the text returned for a non-empty query is the header line
    alone, without a line feed. *)
Theorem render_header_only (cfg : Config) (hours_ago : Z) (tl : list Block) :
  Forall (fun b => ~ long_enough cfg b) tl ->
  render cfg hours_ago tl =
    str "Timeline of focused windows & AFK status (last "
      ++ str_of_Z hours_ago ++ str "h):".
Proof.
  intros Hshort. unfold render. rewrite foldl_render_block.
  rewrite filter_none by done. simpl concat. rewrite app_nil_r.
  unfold header.
  rewrite (app_assoc (str_of_Z hours_ago)), app_assoc.
  apply (strip_padded is_space []); [constructor | by repeat constructor | |].
  - intros c [Hhead | Hlast]; [by injection Hhead as <- |].
    rewrite app_assoc in Hlast.
    change (str "h):") with ([ "h"; ")" ]%char ++ [ ":"%char ]) in Hlast.
    rewrite !app_assoc, last_snoc in Hlast. by injection Hlast as <-.
  - done.
Qed.

Lemma render_header_only_witness :
  render example_config 1
    [ {| block_start := at_time 10 0 0; block_duration := 20000000;
         block_title := str "A"; block_avg_apm := 6 |} ]
  = str "Timeline of focused windows & AFK status (last "
      ++ str_of_Z 1 ++ str "h):".
Proof.
  apply (render_header_only example_config 1).
  apply Forall_cons_2; [| apply Forall_nil_2].
  unfold long_enough, microseconds_of_seconds. simpl. lia.
Defined.

(** ** More on the keyword pattern *)

Lemma sub_forbidden_go_sublist (kws : list pystr) (thatp : bool) (k : nat)
    (s : pystr) :
  sub_forbidden_go kws thatp k s `sublist_of` s.
Proof.
  revert thatp k. induction s as [|c s IH]; intros thatp k; simpl; [done |].
  destruct k as [|k]; [| by apply sublist_cons].
  destruct (forbidden_match kws thatp (c :: s));
    [by apply sublist_cons | by apply sublist_skip].
Qed.

Lemma strip_sublist (p : ascii -> bool) (s : pystr) :
  strip p s `sublist_of` s.
Proof.
  unfold strip.
  destruct (lstrip_split p s) as (a & Hs & _).
  destruct (rstrip_split p (lstrip p s)) as (b & Hx & _).
  rewrite Hs at 2. rewrite Hx at 2.
  apply sublist_inserts_l, sublist_inserts_r. done.
Qed.

(** X11. The substitution of the keyword pattern and the [strip()] after it
    only delete characters: their result is the title with some characters
    left out, the others in their order, so it is never longer than the
    title. *)
Theorem sub_forbidden_only_deletes (kws : list pystr) (title : pystr) :
  sub_forbidden kws title `sublist_of` title
  /\ strip is_space (sub_forbidden kws title) `sublist_of` title
  /\ (length (strip is_space (sub_forbidden kws title)) <= length title)%nat.
Proof.
  assert (strip is_space (sub_forbidden kws title) `sublist_of` title) as H.
  { etrans; [apply strip_sublist | apply sub_forbidden_go_sublist]. }
  split; [apply sub_forbidden_go_sublist |]. split; [done |].
  by apply sublist_length.
Qed.

Lemma lower_lower (c : ascii) : lower (lower c) = lower c.
Proof. destruct c as [[] [] [] [] [] [] [] []]; reflexivity. Qed.

Lemma match_tail_lower_keyword (thatp : bool) (s kw : pystr) :
  match_tail thatp s (lower <$> kw) = match_tail thatp s kw.
Proof.
  revert thatp s. induction kw as [|k kw IH]; intros thatp s; [done |].
  simpl. destruct s as [|c s]; [done |].
  unfold ci_eq. by rewrite lower_lower, IH.
Qed.

Lemma match_tail_lower_subject (thatp : bool) (s kw : pystr) :
  match_tail thatp (lower <$> s) kw = match_tail thatp s kw.
Proof.
  revert thatp s. induction kw as [|k kw IH]; intros thatp s.
  - simpl. unfold at_boundary. destruct s; simpl; [done |].
    by rewrite is_word_lower.
  - simpl. destruct s as [|c s]; [done |]. simpl.
    unfold ci_eq. by rewrite lower_lower, is_word_lower, IH.
Qed.

Lemma find_fmap {A B} (f : B -> bool) (g : A -> B) (l : list A) :
  find f (g <$> l) = g <$> find (fun x => f (g x)) l.
Proof.
  induction l as [|x l IH]; [done |]. csimpl.
  destruct (f (g x)); [done | exact IH].
Qed.

Lemma forbidden_match_lower_keywords (kws : list pystr) (thatp : bool)
    (s : pystr) :
  forbidden_match ((fun kw : pystr => lower <$> kw) <$> kws) thatp s = forbidden_match kws thatp s.
Proof.
  unfold forbidden_match. rewrite find_fmap.
  assert (Hsame : forall kw,
    truthy (lower <$> kw) && keyword_matches thatp s (lower <$> kw)
    = truthy kw && keyword_matches thatp s kw).
  { intros kw. unfold keyword_matches. rewrite match_tail_lower_keyword.
    by destruct kw. }
  induction kws as [|kw kws IH]; [done |]. simpl.
  rewrite Hsame. destruct (truthy kw && keyword_matches thatp s kw).
  - simpl. by rewrite length_fmap.
  - exact IH.
Qed.

Lemma forbidden_match_lower_subject (kws : list pystr) (thatp : bool)
    (s : pystr) :
  forbidden_match kws thatp (lower <$> s) = forbidden_match kws thatp s.
Proof.
  unfold forbidden_match. f_equal.
  induction kws as [|kw kws IH]; [done |]. simpl.
  assert (keyword_matches thatp (lower <$> s) kw = keyword_matches thatp s kw)
    as ->.
  { unfold keyword_matches. rewrite match_tail_lower_subject. f_equal.
    unfold at_boundary. destruct s; simpl; [done |]. by rewrite is_word_lower. }
  by rewrite IH.
Qed.

(** X12. For keywords and a title of characters below U+0100, the
    keyword pattern ignores case on both sides: the keywords in lower case
    remove what the keywords as configured remove, and the substitution on
    the title in lower case gives the lower case of the substitution on
    the title. *)
Theorem sub_forbidden_ignores_case (kws : list pystr) (title : pystr) :
  sub_forbidden ((fun kw : pystr => lower <$> kw) <$> kws) title = sub_forbidden kws title
  /\ sub_forbidden kws (lower <$> title) = lower <$> sub_forbidden kws title.
Proof.
  unfold sub_forbidden. generalize false as thatp. generalize 0%nat as k.
  intros k thatp. split.
  - revert k thatp. induction title as [|c s IH]; intros k thatp; [done |].
    simpl. destruct k as [|k]; [| apply IH].
    rewrite forbidden_match_lower_keywords.
    destruct (forbidden_match kws thatp (c :: s)); [apply IH |].
    by rewrite IH.
  - revert k thatp. induction title as [|c s IH]; intros k thatp; [done |].
    rewrite fmap_cons. simpl. rewrite is_word_lower.
    destruct k as [|k]; [| apply IH].
    change (lower c :: (lower <$> s)) with (lower <$> (c :: s)).
    rewrite forbidden_match_lower_subject.
    destruct (forbidden_match kws thatp (c :: s)); [apply IH |].
    rewrite fmap_cons. by rewrite IH.
Qed.

Lemma all_word_last (m : pystr) :
  Forall (fun c => is_word c = true) m -> m <> [] -> last_is_word m = true.
Proof.
  intros Hall Hne. unfold last_is_word.
  destruct (last m) as [c|] eqn:Hlast; [| by apply last_None in Hlast].
  apply last_Some_elem_of in Hlast.
  by apply (proj1 (Forall_forall _ _) Hall).
Qed.

Lemma all_word_head (m : pystr) :
  Forall (fun c => is_word c = true) m -> m <> [] -> head_is_word m = true.
Proof. intros Hall Hne. by destruct Hall. Qed.

(** In a string of word characters a keyword occurs as a whole word only
    as the whole string. *)
Lemma whole_word_occurrence_word (kw title : pystr) :
  Forall (fun c => is_word c = true) title ->
  whole_word_occurrence kw title -> Forall2 same_letter kw title.
Proof.
  intros Hall (a & m & b & -> & Hne & Hm & Hl & Hr).
  apply Forall_app in Hall as [Ha Hmb]. apply Forall_app in Hmb as [Hmw Hb].
  assert (m <> []) as Hmne.
  { intros ->. apply Forall2_length in Hm. by destruct kw. }
  assert (a = []) as ->.
  { destruct a as [|c a]; [done |]. exfalso. apply Hl.
    rewrite all_word_last by done.
    rewrite all_word_head; [done | by apply Forall_app | by destruct m]. }
  assert (b = []) as ->.
  { destruct b as [|c b]; [done |]. exfalso. apply Hr.
    rewrite all_word_last; [| by apply Forall_app | by destruct m].
    by rewrite all_word_head. }
  by rewrite app_nil_r.
Qed.

Lemma sub_forbidden_go_past (kws : list pystr) (thatp : bool) (k : nat)
    (s : pystr) :
  (length s <= k)%nat -> sub_forbidden_go kws thatp k s = [].
Proof.
  revert thatp k. induction s as [|c s IH]; intros thatp k Hk; [done |].
  destruct k as [|k]; simpl in *; [lia |]. apply IH. lia.
Qed.

(** X13. The keyword pattern matches whole words only: a title that is a
    single word (word characters only) is left as it is by the substitution
    unless a keyword spells the whole title, the case of letters ignored, and
    then nothing of it is left. So the keyword [user] does not touch
    [superuser]. *)
Theorem sub_forbidden_word (kws : list pystr) (title : pystr) :
  Forall (fun c => is_word c = true) title ->
  ((forall kw, kw ∈ kws -> ~ Forall2 same_letter kw title) ->
   sub_forbidden kws title = title)
  /\ ((exists kw, kw ∈ kws /\ kw <> [] /\ Forall2 same_letter kw title) ->
      sub_forbidden kws title = []).
Proof.
  intros Hall. split.
  - intros Hnone. apply (sub_forbidden_unchanged kws []).
    intros kw Hin Hocc. apply (Hnone kw Hin).
    by apply whole_word_occurrence_word.
  - intros (kw & Hin & Hne & Hkw).
    destruct title as [|c s]; [done |].
    unfold sub_forbidden. simpl.
    destruct (forbidden_match kws false (c :: s)) as [n|] eqn:Hmatch.
    + apply sub_forbidden_go_past.
      unfold forbidden_match in Hmatch.
      destruct (find _ kws) as [kw'|] eqn:Hfind; [| done].
      injection Hmatch as <-.
      apply find_some in Hfind as [Hin' [Hne' Hm]%andb_true_iff].
      assert (whole_word_occurrence kw' (c :: s)) as Hocc.
      { apply whole_word_occurrence_match. split; [by destruct kw' |].
        by exists [], (c :: s). }
      apply whole_word_occurrence_word in Hocc; [| done].
      apply Forall2_length in Hocc. simpl in Hocc. lia.
    + exfalso. unfold forbidden_match in Hmatch.
      destruct (find _ kws) as [kw'|] eqn:Hfind; [done |].
      apply (proj1 (find_none_iff _ _)) with (y := kw) in Hfind; [| done].
      assert (keyword_matches false (c :: s) kw = true) as Hm.
      { unfold keyword_matches. apply andb_true_iff. split.
        - unfold at_boundary. by rewrite all_word_head.
        - apply match_tail_split. exists (c :: s), [].
          rewrite app_nil_r. split; [done |]. split; [done |].
          unfold at_boundary.
          change (word_after false (c :: s)) with (last_is_word (c :: s)).
          by rewrite all_word_last. }
      rewrite Hm in Hfind. by destruct kw.
Qed.

Lemma sub_forbidden_word_witness :
  ((forall kw, kw ∈ [str "user"] -> ~ Forall2 same_letter kw (str "superuser")) ->
   sub_forbidden [str "user"] (str "superuser") = str "superuser")
  /\ ((exists kw, kw ∈ [str "user"] /\ kw <> []
                  /\ Forall2 same_letter kw (str "superuser")) ->
      sub_forbidden [str "user"] (str "superuser") = []).
Proof.
  apply (sub_forbidden_word [str "user"] (str "superuser")).
  repeat constructor.
Defined.

(** ** The query *)

#[local] Instance timestamp_le_total : Total timestamp_le.
Proof. intros r1 r2. unfold timestamp_le. lia. Qed.

#[local] Instance timestamp_le_trans : Transitive timestamp_le.
Proof. intros r1 r2 r3. unfold timestamp_le. lia. Qed.

Lemma select_since_perm (start_time : Z) (table : gmap Z (pystr * Z)) :
  select_since start_time table ≡ₚ
  row_of <$> map_to_list (filter (fun kv => start_time <= kv.1) table).
Proof. apply merge_sort_Permutation. Qed.

Lemma elem_of_select_since (start_time : Z) (table : gmap Z (pystr * Z))
    (row : Row) :
  row ∈ select_since start_time table <->
  exists a, apm row = Some a /\ start_time <= timestamp row
    /\ table !! timestamp row = Some (active_title row, a).
Proof.
  rewrite select_since_perm, list_elem_of_fmap. split.
  - intros ([ts [title a]] & -> & Hin).
    apply elem_of_map_to_list, map_lookup_filter_Some in Hin as [Hrow Hts].
    exists a. simpl in *. done.
  - intros (a & Ha & Hts & Hrow). destruct row as [ts title apm0].
    simpl in *. subst apm0. exists (ts, (title, a)). split; [done |].
    apply elem_of_map_to_list, map_lookup_filter_Some. done.
Qed.

Lemma strictly_sorted (l : list Z) :
  StronglySorted Z.le l -> NoDup l -> StronglySorted Z.lt l.
Proof.
  induction 1 as [|x l Hsorted IH Hall]; intros Hnodup; [constructor |].
  apply NoDup_cons in Hnodup as [Hfresh Hnodup].
  constructor; [by apply IH |].
  apply Forall_forall. intros y Hy.
  pose proof (proj1 (Forall_forall _ _) Hall y Hy).
  assert (x <> y) by (intros ->; done). lia.
Qed.

Lemma select_since_sorted (start_time : Z) (table : gmap Z (pystr * Z)) :
  StronglySorted Z.lt (timestamp <$> select_since start_time table).
Proof.
  apply strictly_sorted.
  - apply (StronglySorted_fmap timestamp timestamp_le Z.le); [done |].
    apply (StronglySorted_merge_sort timestamp_le).
  - rewrite select_since_perm, <- list_fmap_compose.
    apply (NoDup_fst_map_to_list
             (filter (fun kv : Z * (pystr * Z) => start_time <= kv.1) table)).
Qed.

(** X14. The rows that the query of [get_activity_log] returns from a
    table are exactly the rows of the table with a time stamp not before
    the start time, each once, in strictly ascending order of time
    stamp. *)
Theorem select_since_rows (start_time : Z) (table : gmap Z (pystr * Z)) :
  StronglySorted Z.lt (timestamp <$> select_since start_time table)
  /\ forall row,
       row ∈ select_since start_time table <->
       exists a, apm row = Some a /\ start_time <= timestamp row
         /\ table !! timestamp row = Some (active_title row, a).
Proof.
  split; [apply select_since_sorted | apply elem_of_select_since].
Qed.

(** X15. What the recorder stores the query finds: after a cycle whose
    transaction the storage accepts, with a time stamp that was free and is
    older neither than the retention horizon nor than the start time of the
    query, the query returns a row with that time stamp; its title is not
    empty, and it is the sentinel with [apm] 0 when the screen was locked,
    the sanitized window title with the number of ticks kept otherwise. *)
Theorem recorded_row_is_found (cfg : Config) (env : Env) (w : World)
    (start_time : Z) :
  storage_ok env = true ->
  activity w !! now_insert env = None ->
  now_cutoff env - microseconds_of_hours (LOG_RETENTION_HOURS cfg)
    <= now_insert env ->
  start_time <= now_insert env ->
  exists row,
    row ∈ select_since start_time (activity (log_activity_cycle cfg env w).1)
    /\ timestamp row = now_insert env
    /\ truthy (active_title row) = true
    /\ (screen_locked env = true ->
        active_title row = str "USER_AFK_LOCKED" /\ apm row = Some 0)
    /\ (screen_locked env = false ->
        active_title row
          = _sanitize_window_title cfg (or_desktop (window_title env))
        /\ apm row
           = Some (evict_and_count cfg (now_window env) (activity_ticks w)).2).
Proof.
  intros Hok Hfree Hhorizon Hstart.
  set (title := if screen_locked env then str "USER_AFK_LOCKED"
                else _sanitize_window_title cfg (or_desktop (window_title env))).
  set (count := if screen_locked env then 0
                else (evict_and_count cfg (now_window env)
                                      (activity_ticks w)).2).
  assert (Htable :
    activity (log_activity_cycle cfg env w).1 !! now_insert env
    = Some (title, count)).
  { unfold log_activity_cycle, title, count. rewrite Hok.
    destruct (screen_locked env); simpl;
      rewrite delete_before_lookup, decide_False by lia;
      rewrite insert_or_ignore_lookup, Hfree, decide_True by done; done. }
  exists {| timestamp := now_insert env; active_title := title;
            apm := Some count |}.
  split; [apply elem_of_select_since; exists count; by simpl |].
  split; [done |]. simpl. split; [| split].
  - unfold title. destruct (screen_locked env); [done |].
    apply sanitize_window_title_truthy, or_desktop_truthy.
  - intros Hl. unfold title, count. by rewrite Hl.
  - intros Hl. unfold title, count. by rewrite Hl.
Qed.

Lemma recorded_row_is_found_witness :
  exists row,
    row ∈ select_since (at_time 9 0 0)
            (activity (log_activity_cycle example_config locked_env
                                          empty_world).1)
    /\ timestamp row = now_insert locked_env
    /\ truthy (active_title row) = true
    /\ (screen_locked locked_env = true ->
        active_title row = str "USER_AFK_LOCKED" /\ apm row = Some 0)
    /\ (screen_locked locked_env = false ->
        active_title row
          = _sanitize_window_title example_config
              (or_desktop (window_title locked_env))
        /\ apm row
           = Some (evict_and_count example_config (now_window locked_env)
                                   (activity_ticks empty_world)).2).
Proof.
  apply (recorded_row_is_found example_config locked_env empty_world
           (at_time 9 0 0)).
  - reflexivity.
  - reflexivity.
  - vm_compute. discriminate.
  - vm_compute. discriminate.
Defined.

(** ** The durations of the timeline *)

(** The runs of rows in ascending order start at time stamps of rows, in
    ascending order. *)
Lemma runs_starts (amap : gmap pystr pystr) (rows : list Row) :
  StronglySorted Z.lt (timestamp <$> rows) ->
  StronglySorted Z.lt (run_start <$> runs amap rows)
  /\ forall run, run ∈ runs amap rows ->
       exists row, row ∈ rows /\ run_start run = timestamp row.
Proof.
  induction rows as [|row rest IH]; intros Hsorted.
  { split; [constructor |]. intros run Hrun. inversion Hrun. }
  rewrite fmap_cons in Hsorted.
  apply StronglySorted_cons in Hsorted as [Hlt Hrest].
  destruct (IH Hrest) as [IHsorted IHfrom].
  assert (Hfirst : forall run, run ∈ runs amap rest ->
                     timestamp row < run_start run).
  { intros run (row' & Hin & ->)%IHfrom.
    apply (proj1 (Forall_forall _ _) Hlt). by apply list_elem_of_fmap_2. }
  simpl runs. destruct (runs amap rest) as [|next more] eqn:Hruns.
  - split; [repeat constructor |].
    intros run ->%list_elem_of_singleton. exists row. split; [by left | done].
  - assert (Hall : Forall (fun t => timestamp row < t)
                          (run_start <$> next :: more)).
    { apply Forall_fmap, Forall_forall. intros run Hrun. by apply Hfirst. }
    rewrite fmap_cons in Hall, IHsorted.
    apply Forall_cons in Hall as [Hn Hm].
    apply StronglySorted_cons in IHsorted as [Hnext Hmore].
    unfold cons_run. case_bool_decide.
    + split.
      * rewrite fmap_cons. by constructor.
      * intros run [-> | Hrun]%elem_of_cons.
        -- exists row. split; [by left | done].
        -- destruct (IHfrom run) as (row' & Hin & Hs); [by right |].
           exists row'. split; [by right | done].
    + split.
      * rewrite !fmap_cons. constructor; [by constructor |].
        by constructor.
      * intros run [-> | Hrun]%elem_of_cons.
        -- exists row. split; [by left | done].
        -- destruct (IHfrom run Hrun) as (row' & Hin & Hs).
           exists row'. split; [by right | done].
Qed.

Lemma sorted_lookup_lt (l : list Z) (i j : nat) (x y : Z) :
  StronglySorted Z.lt l -> l !! i = Some x -> l !! j = Some y ->
  (i < j)%nat -> x < y.
Proof.
  intros Hsorted. revert i j. induction Hsorted as [|z l _ IH Hall];
    intros i j Hi Hj Hij; [done |].
  destruct j as [|j]; [lia |]. simpl in Hj. destruct i as [|i].
  - injection Hi as <-. apply (proj1 (Forall_forall _ _) Hall).
    by eapply list_elem_of_lookup_2.
  - simpl in Hi. apply (IH i j); [done | done | lia].
Qed.

(** X16. For rows in strictly ascending order of time stamp, none later
    than [now] (the rows of a query, closed at a clock that has not gone
    back), the blocks of the timeline start in strictly ascending order,
    every block but the last has a positive duration and the last one a
    duration that is not negative. *)
Theorem timeline_durations (amap : gmap pystr pystr) (rows : list Row)
    (now : Z) :
  StronglySorted Z.lt (timestamp <$> rows) ->
  Forall (fun row => timestamp row <= now) rows ->
  let tl := build_timeline amap rows now in
  StronglySorted Z.lt (block_start <$> tl)
  /\ Forall (fun b => 0 <= block_duration b) tl
  /\ (forall i b, tl !! i = Some b -> is_Some (tl !! S i) ->
        0 < block_duration b).
Proof.
  intros Hsorted Hnow tl. unfold tl. rewrite build_timeline_runs.
  destruct (runs_starts amap rows Hsorted) as [Hstarts Hfrom].
  assert (Hblock_starts :
    block_start <$> blocks_of_runs (runs amap rows) now
    = run_start <$> runs amap rows).
  { generalize (runs amap rows). intros rs.
    induction rs as [|r rs IH]; [done |].
    simpl blocks_of_runs. rewrite !fmap_cons. by rewrite IH. }
  assert (Hduration : forall i b,
    blocks_of_runs (runs amap rows) now !! i = Some b ->
    match runs amap rows !! S i with
    | Some _ => 0 < block_duration b
    | None => 0 <= block_duration b
    end).
  { intros i b Hb.
    apply blocks_of_runs_lookup in Hb as (run & Hrun & _ & _ & _ & ->).
    destruct (runs amap rows !! S i) as [next|] eqn:Hnext.
    - assert (run_start run < run_start next); [| lia].
      apply (sorted_lookup_lt (run_start <$> runs amap rows) i (S i));
        [done | by rewrite list_lookup_fmap, Hrun
        | by rewrite list_lookup_fmap, Hnext | lia].
    - destruct (Hfrom run) as (row & Hin & ->);
        [by eapply list_elem_of_lookup_2 |].
      pose proof (proj1 (Forall_forall _ _) Hnow row Hin) as Hle.
      simpl in Hle. lia. }
  split; [by rewrite Hblock_starts |]. split.
  - apply Forall_forall. intros b [i Hb]%list_elem_of_lookup.
    specialize (Hduration i b Hb).
    destruct (runs amap rows !! S i); lia.
  - intros i b Hb [b' Hb']. specialize (Hduration i b Hb).
    apply blocks_of_runs_lookup in Hb' as (next & Hnext & _).
    by rewrite Hnext in Hduration.
Qed.

Lemma timeline_durations_witness :
  let tl := build_timeline ∅ example_rows (at_time 10 5 0) in
  length tl = 3%nat
  /\ StronglySorted Z.lt (block_start <$> tl)
  /\ Forall (fun b => 0 <= block_duration b) tl
  /\ (forall i b, tl !! i = Some b -> is_Some (tl !! S i) ->
        0 < block_duration b).
Proof.
  split; [reflexivity |].
  apply (timeline_durations ∅ example_rows (at_time 10 5 0)).
  - repeat constructor.
  - repeat (apply Forall_cons_2; [vm_compute; discriminate |]).
    apply Forall_nil_2.
Defined.

(** ** The clamp of [hours_ago] *)

Lemma clamp_hours_idem (cfg : Config) (hours_ago : Z) :
  clamp_hours cfg (clamp_hours cfg hours_ago) = clamp_hours cfg hours_ago.
Proof. unfold clamp_hours. lia. Qed.

Lemma get_activity_log_clamped (cfg : Config) (ollama : pystr -> CmdOutcome)
    (cache : gmap pystr pystr) (fetch : option (list Row))
    (now hours_ago : Z) :
  get_activity_log cfg ollama cache fetch now hours_ago =
  get_activity_log cfg ollama cache fetch now (clamp_hours cfg hours_ago).
Proof.
  unfold get_activity_log.
  change (Z.max 1 (Z.min (clamp_hours cfg hours_ago) (LOG_RETENTION_HOURS cfg)))
    with (clamp_hours cfg (clamp_hours cfg hours_ago)).
  rewrite clamp_hours_idem. done.
Qed.

(** X17. [get_activity_log] takes any [hours_ago]: the call answers as
    the call with the value clamped between 1 and [LOG_RETENTION_HOURS], so
    every value below 1 answers as 1 and, for a retention of at least an
    hour, every value above it as the retention, and the query never starts
    more than the retention, or less than an hour, before the clock. *)
Theorem get_activity_log_on_clamped (cfg : Config)
    (ollama : pystr -> CmdOutcome) (cache : gmap pystr pystr)
    (table : gmap Z (pystr * Z)) (now_query now hours_ago : Z) :
  get_activity_log_on cfg ollama cache table now_query now hours_ago
  = get_activity_log_on cfg ollama cache table now_query now
                        (clamp_hours cfg hours_ago)
  /\ (hours_ago <= 1 -> clamp_hours cfg hours_ago = 1)
  /\ (1 <= LOG_RETENTION_HOURS cfg <= hours_ago ->
      clamp_hours cfg hours_ago = LOG_RETENTION_HOURS cfg)
  /\ (1 <= hours_ago <= LOG_RETENTION_HOURS cfg ->
      clamp_hours cfg hours_ago = hours_ago)
  /\ (1 <= LOG_RETENTION_HOURS cfg ->
      now_query - microseconds_of_hours (LOG_RETENTION_HOURS cfg)
        <= now_query - microseconds_of_hours (clamp_hours cfg hours_ago)
        <= now_query - microseconds_of_hours 1).
Proof.
  split.
  - unfold get_activity_log_on. rewrite clamp_hours_idem.
    apply get_activity_log_clamped.
  - unfold clamp_hours, microseconds_of_hours. repeat split; lia.
Qed.

(** ** The timeline when stage 2 is out of reach *)

Lemma runs_labels_from (amap : gmap pystr pystr) (rows : list Row)
    (run : Run) :
  run ∈ runs amap rows ->
  exists row, row ∈ rows /\ run_label run = map_get amap (active_title row).
Proof.
  revert run. induction rows as [|row rest IH]; intros run; simpl.
  - intros Hrun. inversion Hrun.
  - destruct (runs amap rest) as [|next more] eqn:Hruns; simpl.
    + intros ->%list_elem_of_singleton. exists row. split; [by left | done].
    + assert (Hrest : forall x, x ∈ next :: more ->
                exists row', row' ∈ row :: rest
                  /\ run_label x = map_get amap (active_title row')).
      { intros x (row' & Hin & Hl)%IH. exists row'. split; [by right | done]. }
      case_bool_decide.
      * intros [-> | Hrun]%elem_of_cons.
        -- exists row. split; [by left | done].
        -- apply Hrest. by right.
      * intros [-> | Hrun]%elem_of_cons.
        -- exists row. split; [by left | done].
        -- by apply Hrest.
Qed.

Lemma no_occurrence_nil (kw : pystr) : ~ whole_word_occurrence kw [].
Proof.
  intros (a & m & b & Hs & Hne & Hm & _).
  destruct a; [| done]. destruct m; [| done].
  apply Forall2_length in Hm. by destruct kw.
Qed.

Lemma pre_sanitized_title_no_occurrence (cfg : Config) (title kw : pystr) :
  forallb plain_keyword (FORBIDDEN_KEYWORDS cfg) = true ->
  kw ∈ FORBIDDEN_KEYWORDS cfg ->
  ~ whole_word_occurrence kw (pre_sanitized_title cfg title).
Proof.
  intros Hplain Hin. apply (clean_no_occurrence (FORBIDDEN_KEYWORDS cfg));
    [| done].
  apply pre_sanitized_title_clean; [done |].
  intros Hnil. rewrite Hnil in Hin. inversion Hin.
Qed.

(** X18. For titles and keywords of characters below U+0100: when every
    external call gives no result, the keywords are plain
    and the cache holds no keyword, a call of [get_activity_log] leaves a
    cache that holds no keyword, and every block of the timeline either
    carries the title of a row in which [USER_AFK] occurs, which is exempt
    from redaction, or has a label without whole-word occurrence of any
    forbidden keyword. *)
Theorem fallback_redacts_keywords (cfg : Config)
    (ollama : pystr -> CmdOutcome) (cache : gmap pystr pystr)
    (rows : list Row) (now hours_ago : Z) :
  forallb plain_keyword (FORBIDDEN_KEYWORDS cfg) = true ->
  (forall title, ollama title = NoResult) ->
  cache_clean (FORBIDDEN_KEYWORDS cfg) cache ->
  let r := get_activity_log cfg ollama cache (Some rows) now hours_ago in
  let amap := anonymization_map (anonymization_cache r) (unique_titles rows) in
  cache_clean (FORBIDDEN_KEYWORDS cfg) (anonymization_cache r)
  /\ Forall (fun b =>
       (exists row, row ∈ rows /\ block_title b = active_title row
                    /\ occurs_in (str "USER_AFK") (active_title row))
       \/ forall kw, kw ∈ FORBIDDEN_KEYWORDS cfg ->
            ~ whole_word_occurrence kw (block_title b))
       (build_timeline amap rows now).
Proof.
  intros Hplain Hollama Hcache r amap.
  destruct (get_activity_log_cache cfg ollama cache (Some rows) now hours_ago)
    as (Hfill & Hnodup & Hsub).
  fold r in Hfill, Hnodup, Hsub. specialize (Hsub rows eq_refl).
  assert (Hclean : cache_clean (FORBIDDEN_KEYWORDS cfg) (anonymization_cache r)).
  { intros title label. rewrite Hfill, fill_cache_lookup by done.
    case_decide.
    - intros [= <-]. rewrite Hollama.
      intros kw Hin. by apply pre_sanitized_title_no_occurrence.
    - apply Hcache. }
  split; [done |].
  apply Forall_forall. intros b Hb. rewrite build_timeline_runs in Hb.
  apply list_elem_of_lookup in Hb as [i Hb].
  apply blocks_of_runs_lookup in Hb as (run & Hrun & _ & Htitle & _).
  apply list_elem_of_lookup_2, runs_labels_from in Hrun
    as (row & Hin & Hlabel).
  rewrite Htitle, Hlabel. unfold amap.
  rewrite map_get_anonymization_map. case_decide as Htodo.
  - right. destruct (anonymization_cache r !! active_title row)
      as [label|] eqn:Hentry; simpl.
    + by apply (Hclean (active_title row)).
    + exfalso. rewrite Hfill, fill_cache_lookup in Hentry by done.
      case_decide as Hsubmitted; [done |]. apply Hsubmitted.
      rewrite Hsub. by apply elem_of_titles_to_anonymize.
  - destruct (to_redact (active_title row)) eqn:Hredact.
    { exfalso. apply Htodo, elem_of_unique_titles. eauto. }
    unfold to_redact in Hredact.
    apply andb_false_iff in Hredact as [Hempty | Hafk].
    + right. destruct (active_title row); [| done].
      intros kw _. apply no_occurrence_nil.
    + left. exists row. split; [done |]. split; [done |].
      apply contains_spec. by apply negb_false_iff.
Qed.

Lemma fallback_redacts_keywords_witness :
  let rows := [ {| timestamp := at_time 10 0 0;
                   active_title := str "Mail from Alice - John Smith";
                   apm := Some 4 |};
                {| timestamp := at_time 10 1 0;
                   active_title := str "Inbox - alice";
                   apm := Some 7 |};
                {| timestamp := at_time 10 2 0;
                   active_title := str "USER_AFK_LOCKED";
                   apm := Some 0 |} ] in
  let cache : gmap pystr pystr := {[ str "Inbox - alice" := str "Inbox" ]} in
  let r := get_activity_log names_config (fun _ => NoResult) cache (Some rows)
             (at_time 10 5 0) 1 in
  let amap := anonymization_map (anonymization_cache r) (unique_titles rows) in
  block_title <$> build_timeline amap rows (at_time 10 5 0)
    = [str "Mail from"; str "Inbox"; str "USER_AFK_LOCKED"]
  /\ cache_clean (FORBIDDEN_KEYWORDS names_config) (anonymization_cache r)
  /\ Forall (fun b =>
       (exists row, row ∈ rows /\ block_title b = active_title row
                    /\ occurs_in (str "USER_AFK") (active_title row))
       \/ forall kw, kw ∈ FORBIDDEN_KEYWORDS names_config ->
            ~ whole_word_occurrence kw (block_title b))
       (build_timeline amap rows (at_time 10 5 0)).
Proof.
  split; [vm_compute; reflexivity |].
  apply (fallback_redacts_keywords names_config (fun _ => NoResult)
           {[ str "Inbox - alice" := str "Inbox" ]}).
  - reflexivity.
  - reflexivity.
  - apply map_Forall_singleton. intros kw Hin.
    change (str "Inbox")
      with (pre_sanitized_title names_config (str "Inbox - alice")).
    by apply pre_sanitized_title_no_occurrence.
Defined.
